(** * key-indicator: one tray icon per watched boolean attribute

    A shallow embedding of [main.c] and the properties of its icon
    renderer, tray docking order and event loop.

    Conventions.  C [int], [long] and [Window] values are [Z]; every
    arithmetic result that occurs stays far inside the range of its C type
    (see [atoi_small]), so no wrap-around is written out.  C strings are
    [string]; the character with code 0 terminates them.  The calls the
    program makes to the C library, the kernel and Xlib are recorded, in
    program order, in the [log] of the [World]: what the program does is read
    off that log. *)

From Stdlib Require Import ZArith Ascii String DecimalString Lia.
From stdpp Require Import base numbers list option strings.

Local Open Scope Z_scope.

(** ** The C library functions [main.c] relies on *)

Module Libc.

Definition code (c : ascii) : Z := Z.of_N (N_of_ascii c).

Definition NUL : ascii := ascii_of_N 0.

(** [isspace] in the C locale: space, and \t \n \v \f \r. *)
Definition isspace (c : ascii) : bool :=
  (code c =? 32) || ((9 <=? code c) && (code c <=? 13)).

Definition isdigit (c : ascii) : bool :=
  (48 <=? code c) && (code c <=? 57).

(** The C string held in a character array: the characters before the
    first NUL. *)
Fixpoint cstr (b : string) : string :=
  match b with
  | EmptyString => EmptyString
  | String c r => if code c =? 0 then EmptyString else String c (cstr r)
  end.

Fixpoint skip_space (s : string) : string :=
  match s with
  | String c r => if isspace c then skip_space r else s
  | EmptyString => s
  end.

Fixpoint digits10 (acc : Z) (s : string) : Z :=
  match s with
  | String c r =>
      if isdigit c then digits10 (acc * 10 + (code c - 48)) r else acc
  | EmptyString => acc
  end.

(** [atoi]: optional white space, optional sign, decimal digits; stops at
    the first other character. *)
Definition atoi (s : string) : Z :=
  match skip_space s with
  | String c r =>
      if code c =? 45 then - digits10 0 r
      else if code c =? 43 then digits10 0 r
      else digits10 0 (String c r)
  | EmptyString => 0
  end.

(** [unsigned long] of an LP64 Linux. *)
Definition ULONG_MAX : Z := 2 ^ 64 - 1.

Definition digit_val (c : ascii) : option Z :=
  let n := code c in
  if (48 <=? n) && (n <=? 57) then Some (n - 48)
  else if (97 <=? n) && (n <=? 122) then Some (n - 97 + 10)
  else if (65 <=? n) && (n <=? 90) then Some (n - 65 + 10)
  else None.

Fixpoint digits_base (base acc : Z) (s : string) : Z :=
  match s with
  | String c r =>
      match digit_val c with
      | Some d => if d <? base then digits_base base (acc * base + d) r else acc
      | None => acc
      end
  | EmptyString => acc
  end.

(** [strtoul(s, NULL, 0)]: the base is read off the prefix ([0x] or [0X]
    hexadecimal, [0] octal, decimal otherwise); a value that does not fit
    is [ULONG_MAX]; a minus sign negates modulo [ULONG_MAX + 1]. *)
Definition strtoul0 (s : string) : Z :=
  let s1 := skip_space s in
  let '(neg, s2) :=
    match s1 with
    | String c r =>
        if code c =? 45 then (true, r)
        else if code c =? 43 then (false, r) else (false, s1)
    | EmptyString => (false, s1)
    end in
  let v :=
    match s2 with
    | String c0 (String cx r) =>
        if code c0 =? 48 then
          if (code cx =? 120) || (code cx =? 88) then digits_base 16 0 r
          else digits_base 8 0 (String cx r)
        else digits_base 10 0 s2
    | _ => digits_base 10 0 s2
    end in
  if ULONG_MAX <? v then ULONG_MAX
  else if neg then (- v) mod (ULONG_MAX + 1) else v.

(** [strsep(&rest, ":")]: the token before the first colon and what is
    left after it; [None] stands for the NULL pointer. *)
Fixpoint split_colon (s : string) : string * option string :=
  match s with
  | EmptyString => (EmptyString, None)
  | String c r =>
      if code c =? 58 then (EmptyString, Some r)
      else let '(tok, rest) := split_colon r in (String c tok, rest)
  end.

Definition strsep (rest : option string) : option string * option string :=
  match rest with
  | None => (None, None)
  | Some s => let '(tok, rest') := split_colon s in (Some tok, rest')
  end.

(** [strncpy(dst, src, n)] into a zeroed array of [n + 1] characters, read
    back as a C string: the first [n] characters of [src]. *)
Fixpoint strncpy (n : nat) (src : string) : string :=
  match n, src with
  | S n', String c r => String c (strncpy n' r)
  | _, _ => EmptyString
  end.

Definition strlen (s : string) : Z := Z.of_nat (String.length s).

(** A zeroed character array of [n] cells. *)
Fixpoint zeros (n : nat) : string :=
  match n with
  | O => EmptyString
  | S n' => String NUL (zeros n')
  end.

End Libc.

(** ** Data model *)

(** [Attr]: one tracked attribute.  [path] and [label] are the C strings
    held in the arrays [char path[256]] and [char label[8]]. *)
Record Attr := mkAttr {
  path : string;
  label : string;
  fg : Z;
  bg_active : Z;
  bg_inactive : Z;
  state : Z;   (* cached 0/1 *)
  wd : Z;      (* inotify watch descriptor *)
  win : Z      (* X11 dock window *)
}.

Definition set_state (v : Z) (a : Attr) : Attr :=
  mkAttr (path a) (label a) (fg a) (bg_active a) (bg_inactive a) v (wd a) (win a).

Definition set_wd (v : Z) (a : Attr) : Attr :=
  mkAttr (path a) (label a) (fg a) (bg_active a) (bg_inactive a) (state a) v (win a).

Definition set_win (v : Z) (a : Attr) : Attr :=
  mkAttr (path a) (label a) (fg a) (bg_active a) (bg_inactive a) (state a) (wd a) v.

(** What a path gives when it is opened and read, at one instant. *)
Inductive Source :=
| open_fails                          (* open() returns -1 *)
| read_fails (fd : N)                 (* open() returns fd, read() returns -1 *)
| content (fd : N) (data : string).   (* read(fd, b, k) copies the first
                                         min k |data| bytes of data *)

Definition FS : Type := string -> Source.

Record XEvent := mkXEvent { ev_type : Z; ev_window : Z }.

(** [struct inotify_event], without the name that may follow it. *)
Record InotifyEvent := mkIno { ie_wd : Z; ie_mask : Z; ie_len : Z }.

(** The calls that leave the program, with their arguments and, for those
    whose result the program uses, the result. *)
Inductive Call :=
| c_fprintf_stderr (msg : string)
| c_perror (s : string)
| c_open (p : string) (ret : Z)
| c_read (fd : Z) (count : Z) (ret : Z)
| c_close (fd : Z)
| c_XOpenDisplay (ok : bool)
| c_XInternAtom (name : string)
| c_XCreateGC (w : Z)
| c_XSetForeground (color : Z)
| c_XFillRectangle (w x y width height : Z)
| c_XDrawString (w x y : Z) (s : string) (len : Z)
| c_XFreeGC
| c_XSync
| c_XGetSelectionOwner (scr : Z) (ret : Z)
| c_XSendEvent (dest : Z) (ty : Z) (message_type : string) (format : Z) (data : list Z)
| c_XCreateSimpleWindow (x y width height border : Z) (ret : Z)
| c_XChangeProperty (w : Z) (prop : string) (format : Z) (mode : Z) (data : list Z)
| c_XSelectInput (w : Z) (mask : Z)
| c_XMapWindow (w : Z)
| c_XNextEvent (ev : XEvent)
| c_inotify_init1 (ret : Z)
| c_inotify_add_watch (p : string) (ret : Z)
| c_select (ret : Z)
| c_read_inotify (ret : Z).

(** The globals of [main.c] ([attrs]; [n_attr] is the length of [attrs]),
    the id the next window gets, and the calls made so far, oldest first.
    Window ids are numbered in the order of creation: [next_xid] counts
    windows, and stands for whatever distinct ids Xlib returns; the ids Xlib
    takes for graphics contexts are not modelled, the program never looks
    at one. *)
Record World := mkWorld {
  attrs : list Attr;
  next_xid : Z;
  log : list Call
}.

(** ** State passing *)

Definition M (A : Type) : Type := World -> A * World.

Definition ret {A} (x : A) : M A := fun w => (x, w).

Definition bind {A B} (m : M A) (k : A -> M B) : M B :=
  fun w => let '(x, w') := m w in k x w'.

Declare Scope prog_scope.
Delimit Scope prog_scope with prog.
Notation "x ← m ; k" := (bind m (fun x => k))
  (at level 20, m at level 100, k at level 200, only parsing) : prog_scope.
Notation "m ;; k" := (bind m (fun _ => k))
  (at level 100, k at level 200, only parsing, right associativity) : prog_scope.
Local Open Scope prog_scope.

Definition emit (c : Call) : M unit :=
  fun w => (tt, mkWorld (attrs w) (next_xid w) (log w ++ [c])).

Definition put_attr (i : nat) (a : Attr) : M unit :=
  fun w => (tt, mkWorld (<[i := a]> (attrs w)) (next_xid w) (log w)).

Definition fresh_xid : M Z :=
  fun w => (next_xid w, mkWorld (attrs w) (next_xid w + 1) (log w)).

Definition when (b : bool) (m : M unit) : M unit := if b then m else ret tt.

(** ** Constants of the headers *)

Definition newline : string := String (ascii_of_N 10) EmptyString.

Definition ICON_SZ : Z := 24.
Definition Expose : Z := 12.
Definition ClientMessage : Z := 33.
Definition ExposureMask : Z := 32768.
Definition PropModeReplace : Z := 0.
Definition CurrentTime : Z := 0.
Definition EINTR : Z := 4.

(** ** Helpers of [main.c] *)

Definition parse_color (s : option string) (def : string) : Z :=
  Libc.strtoul0 (match s with Some s' => s' | None => def end).

Definition sys_open (fs : FS) (p : string) : M Z :=
  let fd := match fs p with
            | open_fails => -1
            | read_fails fd => Z.of_N fd
            | content fd _ => Z.of_N fd
            end in
  emit (c_open p fd) ;; ret fd.

(** [read(fd, b, count)] on the descriptor [sys_open] gave for [p]: the
    number of bytes read, or -1, and the bytes put at the start of [b]. *)
Definition sys_read (fs : FS) (p : string) (fd : Z) (count : nat) : M (Z * string) :=
  let r := match fs p with
           | content _ data =>
               let got := Libc.strncpy count data in
               (Z.of_nat (String.length got), got)
           | _ => (-1, EmptyString)
           end in
  emit (c_read fd (Z.of_nat count) (r.1)) ;; ret r.

(** [b] after the read: the bytes read, then the zeros [b] was filled with. *)
Definition fill (size : nat) (got : string) : string :=
  got +:+ Libc.zeros (size - String.length got).

Definition read_bool (fs : FS) (p : string) : M Z :=
  fd ← sys_open fs p;
  if fd <? 0 then ret (-1)
  else
    r ← sys_read fs p fd (8 - 1);
    let b := fill 8 (r.2) in
    emit (c_close fd) ;;
    ret (if 0 <? r.1 then Libc.atoi (Libc.cstr b) else -1).

(** [a->state ? x : y] and [if (a->state)]: an [int] is true when it is not 0. *)
Definition truthy (v : Z) : bool := negb (v =? 0).

Definition x_flush : M unit := emit c_XSync.

Definition draw_icon (a : Attr) : M unit :=
  emit (c_XCreateGC (win a)) ;;
  let bg := if truthy (state a) then bg_active a else bg_inactive a in
  emit (c_XSetForeground bg) ;;
  emit (c_XFillRectangle (win a) 0 0 ICON_SZ ICON_SZ) ;;
  when (truthy (state a))
    (emit (c_XSetForeground (fg a)) ;;
     emit (c_XDrawString (win a) 3 (ICON_SZ - 8) (label a) (Libc.strlen (label a)))) ;;
  emit c_XFreeGC ;;
  x_flush.

(** What the program finds around it when it starts. *)
Record Env := mkEnv {
  e_fs : FS;                   (* the file system while the arguments are read *)
  e_display : bool;            (* XOpenDisplay returns a display *)
  e_scr : Z;                   (* DefaultScreen(dpy) *)
  e_tray : Z;                  (* owner of the tray selection, 0 when there is none *)
  e_xid : Z;                   (* id of the first window created *)
  e_ino_fd : Z;                (* result of inotify_init1 *)
  e_add_watch : string -> Z;   (* result of inotify_add_watch, by path *)
  e_strerror : string          (* strerror(errno) after a failed inotify_add_watch *)
}.

Definition dock_to_tray (env : Env) (w : Z) : M unit :=
  let sel := "_NET_SYSTEM_TRAY_S" +:+ NilZero.string_of_int (Z.to_int (e_scr env)) in
  emit (c_XInternAtom sel) ;;
  let tray := e_tray env in
  emit (c_XGetSelectionOwner (e_scr env) tray) ;;
  if tray =? 0 then ret tt   (* no system tray present *)
  else
    emit (c_XSendEvent tray ClientMessage "_NET_SYSTEM_TRAY_OPCODE" 32
            [CurrentTime; 0 (* SYSTEM_TRAY_REQUEST_DOCK *); w]).

(** [calloc] gives zeroed cells; [attrs[i]] beyond the array is never
    evaluated, every loop being bounded by [n_attr]. *)
Definition zero_attr : Attr := mkAttr EmptyString EmptyString 0 0 0 0 0 0.

Global Instance Attr_inhabited : Inhabited Attr := populate zero_attr.

Definition attr_at (i : nat) : M Attr := fun w => (attrs w !!! i, w).

Definition n_attr : M nat := fun w => (length (attrs w), w).

Definition create_window (env : Env) (i : nat) : M unit :=
  w ← fresh_xid;
  emit (c_XCreateSimpleWindow 0 0 ICON_SZ ICON_SZ 0 w) ;;
  a ← attr_at i;
  put_attr i (set_win w a) ;;
  emit (c_XChangeProperty w "_XEMBED_INFO" 32 PropModeReplace [0; 0]) ;;
  emit (c_XSelectInput w ExposureMask) ;;
  emit (c_XMapWindow w) ;;
  dock_to_tray env w.

(** ** Loops *)

(** [for (i = i0; i < i0 + k; ++i) body], where [body] answers [true] when
    it leaves the loop by [break]. *)
Fixpoint for_up (k i : nat) (body : nat -> M bool) : M unit :=
  match k with
  | O => ret tt
  | S k' => b ← body i; if b : bool then ret tt else for_up k' (S i) body
  end.

(** [for (i = k - 1; i >= 0; --i) body]. *)
Fixpoint for_down (k : nat) (body : nat -> M unit) : M unit :=
  match k with
  | O => ret tt
  | S i => body i ;; for_down i body
  end.

(** ** [main]: argument parsing *)

Definition parse_arg (arg : string) : Attr :=
  let '(tok, rest) := Libc.strsep (Some arg) in
  let p := Libc.strncpy (256 - 1) (default EmptyString tok) in
  let '(tok, rest) := Libc.strsep rest in
  let l := Libc.strncpy (8 - 1) (default EmptyString tok) in
  let '(tok, rest) := Libc.strsep rest in
  let c_fg := parse_color tok "0x000000" in
  let '(tok, rest) := Libc.strsep rest in
  let c_bg1 := parse_color tok "0xFFFFFF" in
  let '(tok, rest) := Libc.strsep rest in
  let c_bg0 := parse_color tok "0x303030" in
  mkAttr p l c_fg c_bg1 c_bg0 0 0 0.

Definition parse_body (env : Env) (argv : list string) (i : nat) : M bool :=
  let a := parse_arg (default EmptyString (argv !! S i)) in
  put_attr i a ;;
  v ← read_bool (e_fs env) (path a);
  put_attr i (set_state v a) ;;
  ret false.

(** ** [main]: the event loop *)

Definition expose_body (window : Z) (i : nat) : M bool :=
  a ← attr_at i;
  if window =? win a then draw_icon a ;; ret true else ret false.

Definition on_xevent (ev : XEvent) : M unit :=
  emit (c_XNextEvent ev) ;;
  when (ev_type ev =? Expose)
    (n ← n_attr; for_up n 0 (expose_body (ev_window ev))).

(** [while (XPending(dpy))]: [evs] are the events the connection holds, in
    the order [XNextEvent] returns them. *)
Fixpoint drain_x (evs : list XEvent) : M unit :=
  match evs with
  | [] => ret tt
  | ev :: evs' => on_xevent ev ;; drain_x evs'
  end.

Definition notify_body (fs : FS) (ie : InotifyEvent) (i : nat) : M bool :=
  a ← attr_at i;
  if wd a =? ie_wd ie then
    v ← read_bool fs (path a);
    when ((0 <=? v) && negb (v =? state a))
      (put_attr i (set_state v a) ;;
       a' ← attr_at i;
       draw_icon a') ;;
    ret true
  else ret false.

Definition on_record (rec : InotifyEvent * FS) : M unit :=
  n ← n_attr; for_up n 0 (notify_body (rec.2) (rec.1)).

(** [while (ptr < buf + len)]: one turn per record of the batch. *)
Fixpoint on_records (recs : list (InotifyEvent * FS)) : M unit :=
  match recs with
  | [] => ret tt
  | r :: recs' => on_record r ;; on_records recs'
  end.

Definition sizeof_inotify_event : Z := 16.

(** The records one [read] of the inotify descriptor delivers, each with the
    file system as it is when the record is handled.  No record: the read
    returns -1 (the descriptor is non-blocking). *)
Definition batch_len (recs : list (InotifyEvent * FS)) : Z :=
  match recs with
  | [] => -1
  | _ => foldr (fun r n => sizeof_inotify_event + ie_len (r.1) + n) 0 recs
  end.

Inductive SelectResult :=
| select_fails (errno : Z)
| select_ready (x_ready ino_ready : bool).

(** One return of [select], with what the two descriptors then deliver. *)
Record Wake := mkWake {
  wk_select : SelectResult;
  wk_xevents : list XEvent;
  wk_records : list (InotifyEvent * FS)
}.

Definition select_ret (r : SelectResult) : Z :=
  match r with
  | select_fails _ => -1
  | select_ready x i => Z.b2z x + Z.b2z i
  end.

Definition dispatch (wk : Wake) (x_ready ino_ready : bool) : M unit :=
  (* X11 events *)
  when x_ready (drain_x (wk_xevents wk)) ;;
  (* inotify events *)
  when ino_ready
    (let len := batch_len (wk_records wk) in
     emit (c_read_inotify len) ;;
     when (0 <? len) (on_records (wk_records wk))).

(** How the loop is left: by [break], or not at all ([select] never returns
    again once [wakes] is used up). *)
Inductive LoopEnd := loop_break | loop_blocked.

Fixpoint event_loop (wakes : list Wake) : M LoopEnd :=
  match wakes with
  | [] => ret loop_blocked
  | wk :: wakes' =>
      emit (c_select (select_ret (wk_select wk))) ;;
      match wk_select wk with
      | select_fails errno =>
          if errno =? EINTR then event_loop wakes'   (* continue *)
          else emit (c_perror "select") ;; ret loop_break
      | select_ready x_ready ino_ready =>
          dispatch wk x_ready ino_ready ;;
          event_loop wakes'
      end
  end.

(** ** [main] *)

Definition watch_body (env : Env) (i : nat) : M bool :=
  a ← attr_at i;
  let r := e_add_watch env (path a) in
  emit (c_inotify_add_watch (path a) r) ;;
  put_attr i (set_wd r a) ;;
  when (r <? 0)
    (emit (c_fprintf_stderr
             ("warning: cannot watch " +:+ path a +:+ " (" +:+ e_strerror env +:+ ")" +:+ newline))) ;;
  ret false.

(** The body of the loop that creates the windows:
    [create_window(&attrs[i]); draw_icon(&attrs[i]);] *)
Definition startup_body (env : Env) (i : nat) : M unit :=
  create_window env i ;;
  a ← attr_at i;
  draw_icon a.

Definition startup_windows (env : Env) : M unit :=
  n ← n_attr;
  for_down n (startup_body env).

Definition alloc_attrs (n : nat) : M unit :=
  fun w => (tt, mkWorld (replicate n zero_attr) (next_xid w) (log w)).

(** [main] returns [Some code] when the process exits with [code], [None]
    when it is still waiting in [select] after [wakes].  [argv] holds the
    program name and the arguments; its length is [argc].  When [argv] is
    empty, [argv[0]] is the null pointer, which [fprintf] prints as
    [(null)] for [%s]. *)
Definition main (env : Env) (argv : list string) (wakes : list Wake) : M (option Z) :=
  let argc := Z.of_nat (length argv) in
  if argc <? 2 then
    emit (c_fprintf_stderr
            ("Usage: " +:+ default "(null)" (argv !! 0%nat)
               +:+ " PATH:LABEL:FG:BG1:BG0 [...]" +:+ newline)) ;;
    ret (Some 1)
  else
    (* argument parsing *)
    alloc_attrs (Z.to_nat (argc - 1)) ;;
    n ← n_attr;
    for_up n 0 (parse_body env argv) ;;
    (* X11 init *)
    emit (c_XOpenDisplay (e_display env)) ;;
    if negb (e_display env) then emit (c_perror "XOpenDisplay") ;; ret (Some 1)
    else
      emit (c_XInternAtom "_XEMBED_INFO") ;;
      emit (c_XInternAtom "_NET_SYSTEM_TRAY_OPCODE") ;;
      (* create & dock windows in reverse CLI order *)
      startup_windows env ;;
      (* inotify init *)
      emit (c_inotify_init1 (e_ino_fd env)) ;;
      if e_ino_fd env <? 0 then emit (c_perror "inotify_init1") ;; ret (Some 1)
      else
        n ← n_attr;
        for_up n 0 (watch_body env) ;;
        (* main event loop *)
        e ← event_loop wakes;
        match e with
        | loop_break => ret (Some 0)
        | loop_blocked => ret None
        end.

Definition boot (env : Env) : World := mkWorld [] (e_xid env) [].

Definition run (env : Env) (argv : list string) (wakes : list Wake) : option Z * World :=
  main env argv wakes (boot env).

(** ** Observations on worlds and logs *)

Definition append_log (cs : list Call) (w : World) : World :=
  mkWorld (attrs w) (next_xid w) (log w ++ cs).

Definition with_attrs (l : list Attr) (w : World) : World :=
  mkWorld l (next_xid w) (log w).

(** The calls of one [draw_icon]. *)
Definition icon_calls (a : Attr) : list Call :=
  [c_XCreateGC (win a);
   c_XSetForeground (if truthy (state a) then bg_active a else bg_inactive a);
   c_XFillRectangle (win a) 0 0 ICON_SZ ICON_SZ]
  ++ (if truthy (state a)
      then [c_XSetForeground (fg a);
            c_XDrawString (win a) 3 (ICON_SZ - 8) (label a) (Libc.strlen (label a))]
      else [])
  ++ [c_XFreeGC; c_XSync].

(** The integer at the head of what one read of a source delivers: [None]
    when the open fails, the read fails or the read delivers no byte. *)
Definition parsed (s : Source) : option Z :=
  match s with
  | content _ (String c r) => Some (Libc.atoi (Libc.cstr (Libc.strncpy 7 (String c r))))
  | _ => None
  end.

(** The open or the read of a source fails. *)
Definition unreadable (s : Source) : Prop :=
  match s with
  | open_fails | read_fails _ => True
  | content _ _ => False
  end.

Definition read_value (s : Source) : Z := default (-1) (parsed s).

Definition read_calls (p : string) (s : Source) : list Call :=
  match s with
  | open_fails => [c_open p (-1)]
  | read_fails fd => [c_open p (Z.of_N fd); c_read (Z.of_N fd) 7 (-1); c_close (Z.of_N fd)]
  | content fd data =>
      [c_open p (Z.of_N fd);
       c_read (Z.of_N fd) 7 (Z.of_nat (String.length data) `min` 7);
       c_close (Z.of_N fd)]
  end.

(** The descriptor a window handle or a watch descriptor resolves to: the
    first one, in array order, that carries the handle. *)
Definition win_owner (window : Z) (l : list Attr) : option (nat * Attr) :=
  list_find (λ a, window = win a) l.

Definition wd_owner (d : Z) (l : list Attr) : option (nat * Attr) :=
  list_find (λ a, wd a = d) l.

(** The calls one X event of the queue gives rise to. *)
Definition xevent_calls (l : list Attr) (ev : XEvent) : list Call :=
  c_XNextEvent ev ::
  (if ev_type ev =? Expose then
     match win_owner (ev_window ev) l with
     | Some (_, a) => icon_calls a
     | None => []
     end
   else []).

(** The world after one notification record. *)
Definition record_step (rec : InotifyEvent * FS) (w : World) : World :=
  match wd_owner (ie_wd (rec.1)) (attrs w) with
  | None => w
  | Some (i, a) =>
      let s := rec.2 (path a) in
      let v := read_value s in
      if (0 <=? v) && negb (v =? state a) then
        append_log (read_calls (path a) s ++ icon_calls (set_state v a))
          (with_attrs (<[i := set_state v a]> (attrs w)) w)
      else append_log (read_calls (path a) s) w
  end.

Definition records_step (recs : list (InotifyEvent * FS)) (w : World) : World :=
  foldl (λ w' r, record_step r w') w recs.

(** The world after the X11 part, and after the inotify part, of one turn
    of the loop. *)
Definition x_part (wk : Wake) (x_ready : bool) (w : World) : World :=
  if x_ready then append_log (wk_xevents wk ≫= xevent_calls (attrs w)) w else w.

Definition ino_part (wk : Wake) (ino_ready : bool) (w : World) : World :=
  if ino_ready then
    let w1 := append_log [c_read_inotify (batch_len (wk_records wk))] w in
    if 0 <? batch_len (wk_records wk) then records_step (wk_records wk) w1 else w1
  else w.

(** The cached states the loop may hold in [w'] when it started from [w]:
    at every index the state [w] had, or a non-negative one. *)
Definition stored_ok (w w' : World) : Prop :=
  length (attrs w') = length (attrs w) /\
  forall i : nat, state (attrs w' !!! i) = state (attrs w !!! i)
                  \/ 0 <= state (attrs w' !!! i).

(** The number of times an icon was drawn on [window]: every [draw_icon]
    starts with one [XCreateGC] on the window of its descriptor. *)
Definition is_draw_on (window : Z) (c : Call) : bool :=
  match c with
  | c_XCreateGC x => x =? window
  | _ => false
  end.

Definition redraws (window : Z) (cs : list Call) : nat :=
  length (List.filter (is_draw_on window) cs).

(** The values the re-reads of descriptor [i] yield over the records
    [recs], oldest first: one value for each record whose watch descriptor
    resolves to [i], namely what reading the path of [i] gives in the file
    system of that record.  Only the watch descriptors and the paths of [l]
    are used. *)
Definition observed (i : nat) (l : list Attr) (recs : list (InotifyEvent * FS)) : list Z :=
  recs ≫= λ r,
    match wd_owner (ie_wd (r.1)) l with
    | Some (j, b) => if decide (j = i) then [read_value (r.2 (path b))] else []
    | None => []
    end.

(** The values among [vs] that are not negative. *)
Definition accepted (vs : list Z) : list Z := List.filter (λ v, 0 <=? v) vs.

(** The number of places at which the sequence [s], [v1], [v2], ... changes
    its value. *)
Fixpoint value_changes (s : Z) (vs : list Z) : nat :=
  match vs with
  | [] => 0
  | v :: vs' => (if v =? s then 0%nat else 1%nat) + value_changes v vs'
  end.



(** The calls of one [create_window] that is given the resource id [x]. *)
Definition window_calls (env : Env) (x : Z) : list Call :=
  [c_XCreateSimpleWindow 0 0 ICON_SZ ICON_SZ 0 x;
   c_XChangeProperty x "_XEMBED_INFO" 32 PropModeReplace [0; 0];
   c_XSelectInput x ExposureMask;
   c_XMapWindow x;
   c_XInternAtom ("_NET_SYSTEM_TRAY_S" +:+ NilZero.string_of_int (Z.to_int (e_scr env)));
   c_XGetSelectionOwner (e_scr env) (e_tray env)]
  ++ (if e_tray env =? 0 then []
      else [c_XSendEvent (e_tray env) ClientMessage "_NET_SYSTEM_TRAY_OPCODE" 32
              [CurrentTime; 0; x]]).

(** The calls of one turn of the loop that creates the windows. *)
Definition startup_calls (env : Env) (a : Attr) : list Call :=
  window_calls env (win a) ++ icon_calls a.

(** What a call creates, maps, paints or asks the tray [t] to dock. *)
Definition created_window (c : Call) : option Z :=
  match c with
  | c_XCreateSimpleWindow _ _ _ _ _ x => Some x
  | _ => None
  end.

Definition mapped_window (c : Call) : option Z :=
  match c with
  | c_XMapWindow x => Some x
  | _ => None
  end.

Definition painted_window (c : Call) : option Z :=
  match c with
  | c_XFillRectangle x _ _ _ _ => Some x
  | _ => None
  end.

Definition dock_request (t : Z) (c : Call) : option Z :=
  match c with
  | c_XSendEvent dest _ _ _ [_; opcode; x] =>
      if (dest =? t) && (opcode =? 0) then Some x else None
  | _ => None
  end.

(** The host tray, which is not part of this program: as the header of
    [main.c] and the ordering contract of the specification describe it,
    it puts each window that asks to be docked at the leading (left) end of
    its row.  [tray_row t cs] is the row of tray [t], left to right, after
    the calls [cs]. *)
Definition tray_add (t : Z) (row : list Z) (c : Call) : list Z :=
  match dock_request t c with
  | Some x => x :: row
  | None => row
  end.

Definition tray_row (t : Z) (cs : list Call) : list Z := foldl (tray_add t) [] cs.

(** The descriptor [main] builds from one argument: the parsed fields and
    the state read from its path. *)
Definition initial_attr (env : Env) (arg : string) : Attr :=
  let a := parse_arg arg in
  set_state (read_value (e_fs env (path a))) a.

(** The descriptor after [inotify_add_watch]. *)
Definition watched (env : Env) (a : Attr) : Attr :=
  set_wd (e_add_watch env (path a)) a.

Definition watch_calls (env : Env) (a : Attr) : list Call :=
  c_inotify_add_watch (path a) (e_add_watch env (path a)) ::
  (if e_add_watch env (path a) <? 0 then
     [c_fprintf_stderr
        ("warning: cannot watch " +:+ path a +:+ " (" +:+ e_strerror env +:+ ")" +:+ newline)]
   else []).

(** The calls of [main] up to its loop, when [l0] are the descriptors as
    parsed and [l'] the descriptors with their windows. *)
Definition startup_log (env : Env) (l0 l' : list Attr) : list Call :=
  (l0 ≫= λ a, read_calls (path a) (e_fs env (path a)))
  ++ [c_XOpenDisplay true; c_XInternAtom "_XEMBED_INFO";
      c_XInternAtom "_NET_SYSTEM_TRAY_OPCODE"]
  ++ (reverse l' ≫= startup_calls env)
  ++ [c_inotify_init1 (e_ino_fd env)]
  ++ (l' ≫= watch_calls env).

(** ** Worlds used as concrete inputs *)

(** One attribute, cached state 1, watch descriptor 5, window 9. *)
Definition policy_world : World :=
  mkWorld [mkAttr "/sys/a" "A" 0 16711680 2105376 1 5 9] 0 [].

(** One attribute, cached state 0, watch descriptor 5, window 9. *)
Definition idle_world : World :=
  mkWorld [mkAttr "/sys/a" "A" 0 16711680 2105376 0 5 9] 0 [].

(** An environment with a tray (window 77) in which only "/sys/a" exists,
    holding "1", and can be watched. *)
Definition demo_fs : FS :=
  λ p, if String.eqb p "/sys/a" then content 3 ("1" +:+ newline) else open_fails.

Definition demo_env : Env :=
  mkEnv demo_fs true 0 77 100 4
    (λ p, if String.eqb p "/sys/a" then 1 else -1)
    "No such file or directory".

Definition demo_argv : list string :=
  ["key-indicator"; "/sys/a:CTL:0xFFFFFF:0x770000:0x303030";
   "/sys/b:ALT:0x000000:0xFFFF00:0x303030"].

Definition wake_eintr : Wake := mkWake (select_fails EINTR) [] [].
Definition wake_ebadf : Wake := mkWake (select_fails 9) [] [].
Definition wake_expose : Wake := mkWake (select_ready true false) [mkXEvent 12 101] [].

(** Two attributes, both holding "0".  The registration of "/sys/a" fails
    (the kernel is short of memory at that moment), that of "/sys/b"
    succeeds with watch descriptor 1, so the inotify instance has a watch
    and a queue that can overflow.  Later "/sys/a" holds "1", and the kernel
    delivers the record of a queue overflow, whose watch descriptor is -1
    and whose mask is IN_Q_OVERFLOW. *)
Definition unwatched_env : Env :=
  mkEnv (λ _, content 3 ("0" +:+ newline)) true 0 77 100 4
    (λ p, if String.eqb p "/sys/a" then -1 else 1)
    "Cannot allocate memory".

Definition unwatched_argv : list string :=
  ["key-indicator"; "/sys/a:CTL:0xFFFFFF:0x770000:0x303030";
   "/sys/b:ALT:0x000000:0xFFFF00:0x303030"].

Definition wake_overflow : Wake :=
  mkWake (select_ready false true) []
    [(mkIno (-1) 16384 0,
      λ p, if String.eqb p "/sys/a" then content 3 ("1" +:+ newline)
           else content 3 ("0" +:+ newline))].

(** ** Further observations *)

(** No character of [s] is a colon. *)
Fixpoint colon_free (s : string) : bool :=
  match s with
  | EmptyString => true
  | String c r => negb (Libc.code c =? 58) && colon_free r
  end.

(** What may follow the fifth field of an argument: nothing, or a colon and
    any text. *)
Definition field_tail (junk : option string) : string :=
  match junk with
  | None => EmptyString
  | Some j => ":" +:+ j
  end.

(** The calls by which the sources of the descriptors [l] are first read. *)
Definition initial_reads (env : Env) (l : list Attr) : list Call :=
  l ≫= λ a, read_calls (path a) (e_fs env (path a)).

(** A return of [select] that ends the loop: a failure other than [EINTR]. *)
Definition fatal_wake (wk : Wake) : bool :=
  match wk_select wk with
  | select_fails errno => negb (errno =? EINTR)
  | select_ready _ _ => false
  end.

(** The groups of calls the event loop makes. *)
Inductive loop_block : list Call -> Prop :=
| lb_select r : loop_block [c_select r]
| lb_perror s : loop_block [c_perror s]
| lb_next ev : loop_block [c_XNextEvent ev]
| lb_read_inotify n : loop_block [c_read_inotify n]
| lb_read p s : loop_block (read_calls p s)
| lb_icon a : loop_block (icon_calls a).

(** The groups of calls [main] makes before the loop. *)
Inductive startup_block (env : Env) : list Call -> Prop :=
| sb_stderr s : startup_block env [c_fprintf_stderr s]
| sb_perror s : startup_block env [c_perror s]
| sb_display b : startup_block env [c_XOpenDisplay b]
| sb_atom s : startup_block env [c_XInternAtom s]
| sb_init r : startup_block env [c_inotify_init1 r]
| sb_read p s : startup_block env (read_calls p s)
| sb_window x : startup_block env (window_calls env x)
| sb_icon a : startup_block env (icon_calls a)
| sb_watch a : startup_block env (watch_calls env a).

(** A log that is a sequence of groups of the kind [B]. *)
Inductive made_of (B : list Call -> Prop) : list Call -> Prop :=
| made_nil : made_of B []
| made_app b cs : B b -> made_of B cs -> made_of B (b ++ cs).

(** Calls that create a window, change what the server knows of it, or talk
    to the tray. *)
Definition is_window_call (c : Call) : bool :=
  match c with
  | c_XCreateSimpleWindow _ _ _ _ _ _ | c_XChangeProperty _ _ _ _ _
  | c_XSelectInput _ _ | c_XMapWindow _ | c_XGetSelectionOwner _ _
  | c_XSendEvent _ _ _ _ _ | c_XInternAtom _ => true
  | _ => false
  end.

Definition is_send_event (c : Call) : bool :=
  match c with
  | c_XSendEvent _ _ _ _ _ => true
  | _ => false
  end.

(** Graphics contexts created minus graphics contexts freed, and source
    files opened minus files closed, by one call. *)
Definition gc_weight (c : Call) : Z :=
  match c with
  | c_XCreateGC _ => 1
  | c_XFreeGC => -1
  | _ => 0
  end.

Definition fd_weight (c : Call) : Z :=
  match c with
  | c_open _ ret => if 0 <=? ret then 1 else 0
  | c_close _ => -1
  | _ => 0
  end.

Definition total (f : Call -> Z) (cs : list Call) : Z :=
  foldr (λ c n, f c + n) 0 cs.

(** The path a call asks inotify to watch, and the line a call prints on
    the error stream. *)
Definition watch_request (c : Call) : option string :=
  match c with
  | c_inotify_add_watch p _ => Some p
  | _ => None
  end.

Definition stderr_line (c : Call) : option string :=
  match c with
  | c_fprintf_stderr s => Some s
  | _ => None
  end.

(** A group of calls of the program: of [main] before the loop, or of the
    loop. *)
Definition program_block (env : Env) (b : list Call) : Prop :=
  startup_block env b \/ loop_block b.

(** Two arguments that name the same file: both descriptors carry the watch
    descriptor 5. *)
Definition twin_world : World :=
  mkWorld [mkAttr "/sys/a" "A" 0 16711680 2105376 0 5 100;
           mkAttr "/sys/a" "B" 0 65280 2105376 0 5 101] 102 [].

(** The warning for a path that cannot be watched. *)
Definition watch_warning (env : Env) (p : string) : string :=
  "warning: cannot watch " +:+ p +:+ " (" +:+ e_strerror env +:+ ")" +:+ newline.

(** The label a call draws. *)
Definition drawn_label (c : Call) : option string :=
  match c with
  | c_XDrawString _ _ _ s _ => Some s
  | _ => None
  end.

(** * Properties *)

(** ** The C library layer *)

Section LibcFacts.
Import Libc.

Lemma code_range c : 0 <= code c < 256.
Proof.
  unfold code. pose proof (N_ascii_bounded c) as H. lia.
Qed.

Lemma digits10_bound s : forall acc,
  0 <= acc -> 0 <= digits10 acc s < (acc + 1) * 10 ^ Z.of_nat (String.length s).
Proof.
  induction s as [|c r IH]; intros acc Hacc; simpl String.length; simpl digits10.
  - simpl. lia.
  - rewrite Nat2Z.inj_succ, Z.pow_succ_r by lia.
    unfold isdigit. destruct (48 <=? code c) eqn:Hlo; simpl.
    + destruct (code c <=? 57) eqn:Hhi.
      * apply Z.leb_le in Hlo, Hhi.
        specialize (IH (acc * 10 + (code c - 48)) ltac:(lia)).
        assert (0 < 10 ^ Z.of_nat (String.length r)) by (apply Z.pow_pos_nonneg; lia).
        nia.
      * assert (0 < 10 ^ Z.of_nat (String.length r)) by (apply Z.pow_pos_nonneg; lia). nia.
    + assert (0 < 10 ^ Z.of_nat (String.length r)) by (apply Z.pow_pos_nonneg; lia). nia.
Qed.

Lemma skip_space_length s : (String.length (skip_space s) <= String.length s)%nat.
Proof.
  induction s as [|c r IH]; simpl; [lia|].
  destruct (isspace c); simpl; lia.
Qed.

Lemma pow10_mono (n m : nat) : (n <= m)%nat -> 10 ^ Z.of_nat n <= 10 ^ Z.of_nat m.
Proof. intros H. apply Z.pow_le_mono_r; lia. Qed.

(** [atoi] of at most [n] characters is below [10 ^ n] in absolute value. *)
Lemma atoi_bound s : Z.abs (atoi s) < 10 ^ Z.of_nat (String.length s).
Proof.
  unfold atoi. pose proof (skip_space_length s) as Hlen.
  destruct (skip_space s) as [|c r] eqn:Hs.
  - simpl. apply Z.pow_pos_nonneg; lia.
  - simpl in Hlen.
    pose proof (pow10_mono _ _ Hlen) as Hp.
    pose proof (digits10_bound r 0 ltac:(lia)) as Hr.
    pose proof (digits10_bound (String c r) 0 ltac:(lia)) as Hcr.
    simpl String.length in Hcr.
    assert (10 ^ Z.of_nat (String.length r) <= 10 ^ Z.of_nat (S (String.length r)))
      by (apply pow10_mono; lia).
    destruct (code c =? 45); [|destruct (code c =? 43)]; lia.
Qed.

Lemma strncpy_length n s : (String.length (strncpy n s) <= n)%nat.
Proof.
  revert s. induction n as [|n IH]; intros [|c r]; simpl; try lia.
  specialize (IH r). lia.
Qed.

Lemma strncpy_length_min n s :
  String.length (strncpy n s) = Nat.min n (String.length s).
Proof.
  revert s. induction n as [|n IH]; intros [|c r]; simpl; try lia.
  rewrite IH. lia.
Qed.

Lemma cstr_length b : (String.length (cstr b) <= String.length b)%nat.
Proof.
  induction b as [|c r IH]; simpl; [lia|].
  destruct (code c =? 0); simpl; lia.
Qed.

Lemma cstr_app_zeros s n : cstr (s +:+ zeros n) = cstr s.
Proof.
  induction s as [|c r IH]; simpl.
  - destruct n; reflexivity.
  - destruct (code c =? 0); [reflexivity|]. now rewrite IH.
Qed.

(** The value [read_bool] hands to [atoi] has at most 7 characters, so the
    result is an [int] without wrap-around. *)
Lemma atoi_small data :
  - 10 ^ 7 < atoi (cstr (strncpy 7 data)) < 10 ^ 7.
Proof.
  pose proof (atoi_bound (cstr (strncpy 7 data))) as Hb.
  pose proof (cstr_length (strncpy 7 data)) as H1.
  pose proof (strncpy_length 7 data) as H2.
  assert (10 ^ Z.of_nat (String.length (cstr (strncpy 7 data))) <= 10 ^ Z.of_nat 7)
    by (apply pow10_mono; lia).
  change (Z.of_nat 7) with 7 in *. lia.
Qed.

End LibcFacts.

(** ** What each function does to the world *)

Arguments Libc.strncpy : simpl never.
Arguments Libc.atoi : simpl never.
Arguments Libc.cstr : simpl never.
Arguments Libc.strtoul0 : simpl never.
Arguments fill : simpl never.
Arguments String.append : simpl never.

Ltac run_prog :=
  unfold x_flush;
  unfold bind, ret, emit, when, attr_at, put_attr, n_attr, fresh_xid,
    append_log, with_attrs; simpl.

Lemma append_log_nil w : append_log [] w = w.
Proof. destruct w; unfold append_log; simpl. now rewrite app_nil_r. Qed.

Lemma append_log_app cs ds w :
  append_log ds (append_log cs w) = append_log (cs ++ ds) w.
Proof. unfold append_log; simpl. now rewrite app_assoc. Qed.

Lemma emit_run c w : emit c w = (tt, append_log [c] w).
Proof. reflexivity. Qed.

Lemma draw_icon_run a w : draw_icon a w = (tt, append_log (icon_calls a) w).
Proof.
  unfold draw_icon, icon_calls.
  destruct (truthy (state a)); run_prog; rewrite <- ?app_assoc; reflexivity.
Qed.

Lemma read_bool_run fs p w :
  read_bool fs p w = (read_value (fs p), append_log (read_calls p (fs p)) w).
Proof.
  unfold read_bool, sys_open, sys_read, read_value, parsed, read_calls. run_prog.
  destruct (fs p) as [|fd|fd data]; simpl.
  - reflexivity.
  - destruct (Z.ltb_spec (Z.of_N fd) 0) as [Hneg|_]; [lia|].
    simpl. rewrite <- !app_assoc. reflexivity.
  - destruct (Z.ltb_spec (Z.of_N fd) 0) as [Hneg|_]; [lia|].
    simpl. rewrite <- !app_assoc. simpl.
    assert (Hlen : Z.of_nat (String.length (Libc.strncpy 7 data))
                   = Z.of_nat (String.length data) `min` 7)
      by (rewrite strncpy_length_min; lia).
    rewrite Hlen. unfold fill. rewrite cstr_app_zeros.
    change (Z.of_nat 7) with 7.
    destruct data as [|c r]; simpl String.length.
    + reflexivity.
    + destruct (Z.ltb_spec 0 (Z.of_nat (S (String.length r)) `min` 7)) as [_|Hle]; [|lia].
      reflexivity.
Qed.

(** ** Loops that scan [attrs] for a handle *)

Section Scan.
Context (Q : Attr -> Prop) `{!∀ a, Decision (Q a)}.
Context (act : nat -> Attr -> M unit) (body : nat -> M bool).
Hypothesis body_shape : forall j w,
  body j w = if decide (Q (attrs w !!! j))
             then (true, (act j (attrs w !!! j) w).2)
             else (false, w).

Lemma for_up_scan_from k : forall i w,
  (i + k)%nat = length (attrs w) ->
  for_up k i body w =
    match list_find Q (drop i (attrs w)) with
    | Some (j, a) => (tt, (act (i + j) a w).2)
    | None => (tt, w)
    end.
Proof.
  induction k as [|k IH]; intros i w Hlen.
  - rewrite drop_ge by lia. reflexivity.
  - assert (Hi : (i < length (attrs w))%nat) by lia.
    pose proof (list_lookup_lookup_total_lt (attrs w) i Hi) as Hlk.
    rewrite (drop_S _ _ _ Hlk). simpl for_up. unfold bind.
    rewrite body_shape. cbn [list_find].
    destruct (decide (Q (attrs w !!! i))) as [HQ|HQ].
    + rewrite Nat.add_0_r. reflexivity.
    + rewrite (IH (S i) w) by lia.
      destruct (list_find Q (drop (S i) (attrs w))) as [[j a]|]; simpl;
        [|reflexivity].
      now replace (i + S j)%nat with (S (i + j)) by lia.
Qed.

Lemma for_up_scan w :
  for_up (length (attrs w)) 0 body w =
    match list_find Q (attrs w) with
    | Some (j, a) => (tt, (act j a w).2)
    | None => (tt, w)
    end.
Proof. rewrite for_up_scan_from by lia. now rewrite drop_0. Qed.
End Scan.

Lemma on_xevent_run ev w :
  on_xevent ev w = (tt, append_log (xevent_calls (attrs w) ev) w).
Proof.
  unfold on_xevent, xevent_calls, win_owner.
  destruct (ev_type ev =? Expose) eqn:Hty.
  - unfold bind at 1. rewrite emit_run. unfold when. unfold bind, n_attr.
    rewrite (for_up_scan (λ a, ev_window ev = win a)
               (fun _ a => draw_icon a)
               (expose_body (ev_window ev))).
    + cbn [attrs append_log].
      destruct (list_find _ (attrs w)) as [[i a]|]; [|reflexivity].
      rewrite draw_icon_run. now rewrite append_log_app.
    + intros j w'. unfold expose_body, bind, attr_at, ret.
      destruct (Z.eqb_spec (ev_window ev) (win (attrs w' !!! j)));
        destruct (decide (ev_window ev = win (attrs w' !!! j))); try contradiction.
      * now rewrite draw_icon_run.
      * reflexivity.
  - run_prog. reflexivity.
Qed.

Lemma drain_x_run evs : forall w,
  drain_x evs w = (tt, append_log (evs ≫= xevent_calls (attrs w)) w).
Proof.
  induction evs as [|ev evs IH]; intros w; simpl.
  - unfold ret. now rewrite append_log_nil.
  - unfold bind. rewrite on_xevent_run, IH. cbn [attrs append_log].
    now rewrite append_log_app.
Qed.

Lemma on_record_run rec w : on_record rec w = (tt, record_step rec w).
Proof.
  unfold on_record, record_step, wd_owner, bind, n_attr.
  pose (act := fun (i : nat) (a : Attr) =>
    (v ← read_bool (rec.2) (path a);
     when ((0 <=? v) && negb (v =? state a))
       (put_attr i (set_state v a) ;; a' ← attr_at i; draw_icon a'))%prog).
  rewrite (for_up_scan (λ a, wd a = ie_wd (rec.1)) act).
  - destruct (list_find _ (attrs w)) as [[i a]|] eqn:Hfind; [|reflexivity].
    apply list_find_Some in Hfind as (Hlk & _ & _).
    pose proof (lookup_lt_Some _ _ _ Hlk) as Hi.
    unfold act, bind. rewrite read_bool_run.
    destruct ((0 <=? read_value (rec.2 (path a)))
              && negb (read_value (rec.2 (path a)) =? state a)); simpl.
    + unfold put_attr, attr_at. cbn [attrs next_xid log append_log].
      rewrite list_lookup_total_insert_eq by exact Hi.
      rewrite draw_icon_run. unfold append_log, with_attrs; simpl.
      now rewrite <- app_assoc.
    + reflexivity.
  - intros j w'. unfold notify_body, bind, attr_at.
    destruct (Z.eqb_spec (wd (attrs w' !!! j)) (ie_wd (rec.1)));
      destruct (decide (wd (attrs w' !!! j) = ie_wd (rec.1))); try contradiction.
    + unfold act, bind.
      destruct (read_bool (rec.2) (path (attrs w' !!! j)) w') as [v w1].
      destruct (when _ _ w1); reflexivity.
    + reflexivity.
Qed.

Lemma on_records_run recs : forall w,
  on_records recs w = (tt, records_step recs w).
Proof.
  induction recs as [|r recs IH]; intros w; simpl.
  - reflexivity.
  - unfold bind. rewrite on_record_run. apply IH.
Qed.

Lemma dispatch_run wk x_ready ino_ready w :
  dispatch wk x_ready ino_ready w = (tt, ino_part wk ino_ready (x_part wk x_ready w)).
Proof.
  unfold dispatch, ino_part, x_part, bind, when.
  assert (Hx : (if x_ready then drain_x (wk_xevents wk) else ret ()) w
               = (tt, if x_ready
                      then append_log (wk_xevents wk ≫= xevent_calls (attrs w)) w
                      else w))
    by (destruct x_ready; [apply drain_x_run | reflexivity]).
  rewrite Hx. destruct ino_ready; [|reflexivity].
  rewrite emit_run.
  destruct (0 <? batch_len (wk_records wk)); [|reflexivity].
  apply on_records_run.
Qed.

(** The loop, one [select] at a time. *)
Lemma event_loop_nil w : event_loop [] w = (loop_blocked, w).
Proof. reflexivity. Qed.

Lemma event_loop_eintr wk wakes w :
  wk_select wk = select_fails EINTR ->
  event_loop (wk :: wakes) w = event_loop wakes (append_log [c_select (-1)] w).
Proof.
  intros Hsel. cbn [event_loop]. unfold bind. rewrite emit_run, Hsel. reflexivity.
Qed.

Lemma event_loop_fatal wk wakes w errno :
  wk_select wk = select_fails errno -> errno <> EINTR ->
  event_loop (wk :: wakes) w =
    (loop_break, append_log [c_select (-1); c_perror "select"] w).
Proof.
  intros Hsel Hne. cbn [event_loop]. unfold bind. rewrite emit_run, Hsel.
  destruct (Z.eqb_spec errno EINTR) as [->|_]; [contradiction|].
  cbn [select_ret]. rewrite emit_run. unfold ret. now rewrite append_log_app.
Qed.

Lemma event_loop_ready wk wakes w x_ready ino_ready :
  wk_select wk = select_ready x_ready ino_ready ->
  event_loop (wk :: wakes) w =
    event_loop wakes
      (ino_part wk ino_ready
         (x_part wk x_ready
            (append_log [c_select (Z.b2z x_ready + Z.b2z ino_ready)] w))).
Proof.
  intros Hsel. cbn [event_loop]. unfold bind. rewrite emit_run, Hsel.
  cbn [select_ret]. now rewrite dispatch_run.
Qed.

(** ** The icon renderer *)

(** What [draw_icon] paints, by the truth value of the cached [state]. *)
Lemma draw_icon_inactive a w :
  state a = 0 ->
  draw_icon a w =
    (tt, append_log [c_XCreateGC (win a); c_XSetForeground (bg_inactive a);
                     c_XFillRectangle (win a) 0 0 24 24; c_XFreeGC; c_XSync] w).
Proof.
  intros H0. rewrite draw_icon_run. unfold icon_calls, truthy. now rewrite H0.
Qed.

Lemma draw_icon_nonzero a w :
  state a <> 0 ->
  draw_icon a w =
    (tt, append_log [c_XCreateGC (win a); c_XSetForeground (bg_active a);
                     c_XFillRectangle (win a) 0 0 24 24;
                     c_XSetForeground (fg a);
                     c_XDrawString (win a) 3 16 (label a) (Libc.strlen (label a));
                     c_XFreeGC; c_XSync] w).
Proof.
  intros Hne. rewrite draw_icon_run. unfold icon_calls, truthy.
  destruct (Z.eqb_spec (state a) 0); [contradiction|reflexivity].
Qed.

(** C1, where the code departs from the claim.  A source that cannot be
    opened makes [read_bool] return -1, which [main] stores as the state; for
    the state -1 [draw_icon] fills the icon with [bg_active] and draws the
    label in [fg], as it does for an active attribute, where the claim has
    [bg_inactive] and no label. *)
Theorem unknown_state_drawn_active (p : string) (a : Attr) (w : World) :
  (read_bool (λ _, open_fails) p w).1 = -1 /\
  draw_icon (set_state (-1) a) w =
    (tt, append_log [c_XCreateGC (win a); c_XSetForeground (bg_active a);
                     c_XFillRectangle (win a) 0 0 24 24;
                     c_XSetForeground (fg a);
                     c_XDrawString (win a) 3 16 (label a) (Libc.strlen (label a));
                     c_XFreeGC; c_XSync] w).
Proof.
  split.
  - now rewrite read_bool_run.
  - now rewrite draw_icon_nonzero.
Qed.

(** The same on a whole run: the one attribute names a path that does not
    exist, and its icon is first painted in [0xFF0000] with the label. *)
Example nonexistent_path_first_paint :
  let env := mkEnv (λ _, open_fails) true 0 0 100 4 (λ _, -1) "No such file or directory" in
  let w := (run env ["prog"; "/nonexistent:FOO:0x000000:0xFF0000:0x202020"] []).2 in
  state <$> attrs w = [-1] /\
  List.filter (λ c, match c with
                    | c_XSetForeground _ | c_XDrawString _ _ _ _ _ => true
                    | _ => false
                    end) (log w)
  = [c_XSetForeground 16711680; c_XSetForeground 0; c_XDrawString 100 3 16 "FOO" 3].
Proof. vm_compute. split; reflexivity. Qed.

(** ** Reading a source *)

(** C3, as the code has it.  [read_bool] opens the source, reads at most 7
    bytes and closes it.  When the open fails, the read fails or no byte is
    delivered it returns -1; otherwise it returns the integer [atoi] finds at
    the head of the bytes read: 0 for a zero, that nonzero value for a
    nonzero one.  So the result is -1 when the open or the read fails, and
    also for a readable source whose content parses to -1.  The function is
    total: it returns on every input. *)
Theorem read_bool_result (fs : FS) (p : string) (w : World) :
  match fs p with
  | open_fails =>
      read_bool fs p w = (-1, append_log [c_open p (-1)] w)
  | read_fails fd =>
      read_bool fs p w =
        (-1, append_log [c_open p (Z.of_N fd); c_read (Z.of_N fd) 7 (-1);
                         c_close (Z.of_N fd)] w)
  | content fd data =>
      let got := Libc.strncpy 7 data in
      read_bool fs p w =
        (match got with
         | EmptyString => -1
         | String _ _ => Libc.atoi (Libc.cstr got)
         end,
         append_log [c_open p (Z.of_N fd);
                     c_read (Z.of_N fd) 7 (Z.of_nat (String.length got));
                     c_close (Z.of_N fd)] w)
  end
  /\ ((read_bool fs p w).1 = -1 <->
      parsed (fs p) = None \/ parsed (fs p) = Some (-1))
  /\ ((read_bool fs p w).1 = 0 <-> parsed (fs p) = Some 0)
  /\ - 2 ^ 31 <= (read_bool fs p w).1 < 2 ^ 31.
Proof.
  rewrite read_bool_run. cbn [fst]. split; [|split; [|split]].
  - destruct (fs p) as [|fd|fd data]; try reflexivity.
    cbn zeta. rewrite strncpy_length_min.
    unfold read_value, parsed, read_calls.
    replace (Z.of_nat (String.length data) `min` 7)
      with (Z.of_nat (7 `min` String.length data)) by lia.
    destruct data as [|c r]; reflexivity.
  - unfold read_value. destruct (parsed (fs p)) as [v|]; simpl.
    + split; [intros ->; now right | intros [?|[= ->]]; [discriminate|reflexivity]].
    + split; [now left | reflexivity].
  - unfold read_value. destruct (parsed (fs p)) as [v|]; simpl.
    + split; [intros ->; reflexivity | now intros [= ->]].
    + split; [lia | discriminate].
  - unfold read_value, parsed.
    destruct (fs p) as [|fd|fd [|c r]]; simpl; try lia.
    pose proof (atoi_small (String c r)). lia.
Qed.

(** C3, the input on which the claim fails: the source can be opened and
    read (two bytes are delivered), and [read_bool] returns -1, the value it
    returns when the open fails. *)
Lemma read_bool_minus_one_content :
  let fs : FS := λ _, content 3 "-1" in
  let w := mkWorld [] 0 [] in
  ~ unreadable (fs "/sys/attr") /\
  read_bool fs "/sys/attr" w =
    (-1, mkWorld [] 0 [c_open "/sys/attr" 3; c_read 3 7 2; c_close 3]) /\
  read_bool (λ _, open_fails) "/sys/attr" w =
    (-1, mkWorld [] 0 [c_open "/sys/attr" (-1)]).
Proof. split; [intros []|split; reflexivity]. Qed.

(** ** The update policy of notification handling *)

Lemma record_no_owner rec w :
  wd_owner (ie_wd (rec.1)) (attrs w) = None -> on_record rec w = (tt, w).
Proof. intros H. rewrite on_record_run. unfold record_step. now rewrite H. Qed.

Lemma record_owner ie fs w i a :
  wd_owner (ie_wd ie) (attrs w) = Some (i, a) ->
  on_record (ie, fs) w =
    (tt, let v := read_value (fs (path a)) in
         let reread := append_log (read_calls (path a) (fs (path a))) w in
         if (0 <=? v) && negb (v =? state a)
         then append_log (icon_calls (set_state v a))
                (with_attrs (<[i := set_state v a]> (attrs w)) reread)
         else reread).
Proof.
  intros H. rewrite on_record_run. unfold record_step. cbn [fst snd]. rewrite H.
  cbn zeta. destruct (_ && _); [|reflexivity].
  unfold append_log, with_attrs; simpl. now rewrite <- app_assoc.
Qed.

(** C2, as the code has it.  A record is dispatched to the first descriptor
    [a], at index [i], that carries its watch descriptor, and the source of
    [a] is read again.  When the read fails or gives no byte, the world is
    left as it was but for the calls of the read: the state is retained and
    nothing is drawn.  When it gives a non-negative value other than the
    cached state, the value is stored and the icon is drawn with it.  When
    it gives the cached value, nothing is drawn.  A negative value is handled
    as a failed read. *)
Theorem notification_update_policy
    (ie : InotifyEvent) (fs : FS) (w : World) (i : nat) (a : Attr) :
  wd_owner (ie_wd ie) (attrs w) = Some (i, a) ->
  let s := fs (path a) in
  let reread := (read_bool fs (path a) w).2 in
  reread = append_log (read_calls (path a) s) w /\
  (parsed s = None -> on_record (ie, fs) w = (tt, reread)) /\
  (forall v, parsed s = Some v -> 0 <= v -> v <> state a ->
     on_record (ie, fs) w =
       (draw_icon (set_state v a)
          (with_attrs (<[i := set_state v a]> (attrs w)) reread))) /\
  (forall v, parsed s = Some v -> v = state a ->
     on_record (ie, fs) w = (tt, reread)) /\
  (forall v, parsed s = Some v -> v < 0 ->
     on_record (ie, fs) w = (tt, reread)).
Proof.
  intros Hown s reread. subst reread. rewrite read_bool_run. cbn [snd].
  rewrite (record_owner _ _ _ _ _ Hown). fold s. cbn zeta.
  assert (Hval : forall v, parsed s = Some v -> read_value s = v)
    by (intros v Hp; unfold read_value; now rewrite Hp).
  split; [reflexivity|]. split; [|split; [|split]].
  - intros Hp. unfold read_value. rewrite Hp. reflexivity.
  - intros v Hp Hv Hne. rewrite (Hval v Hp), draw_icon_run.
    destruct (Z.leb_spec 0 v); [|lia].
    destruct (Z.eqb_spec v (state a)); [contradiction|reflexivity].
  - intros v Hp ->. rewrite (Hval _ Hp).
    rewrite Z.eqb_refl, andb_false_r. reflexivity.
  - intros v Hp Hv. rewrite (Hval v Hp).
    destruct (Z.leb_spec 0 v); [lia|reflexivity].
Qed.

Lemma notification_update_policy_witness :
  wd_owner 5 (attrs policy_world)
    = Some (0%nat, mkAttr "/sys/a" "A" 0 16711680 2105376 1 5 9) /\
  on_record (mkIno 5 2 0, λ _, content 3 "0") policy_world =
    (tt, mkWorld [mkAttr "/sys/a" "A" 0 16711680 2105376 0 5 9] 0
           [c_open "/sys/a" 3; c_read 3 7 1; c_close 3;
            c_XCreateGC 9; c_XSetForeground 2105376;
            c_XFillRectangle 9 0 0 24 24; c_XFreeGC; c_XSync]).
Proof.
  split; [reflexivity|].
  pose proof (notification_update_policy (mkIno 5 2 0) (λ _, content 3 "0")
                policy_world 0 (mkAttr "/sys/a" "A" 0 16711680 2105376 1 5 9)
                eq_refl) as (_ & _ & Hchg & _).
  etransitivity; [apply (Hchg 0 eq_refl); simpl; lia | reflexivity].
Defined.

(** C2, the input on which the claim fails: the source is opened and read
    and holds -5, a value other than the cached state 1; the state is not
    updated and nothing is drawn. *)
Lemma negative_content_not_stored :
  let fs : FS := λ _, content 3 "-5" in
  parsed (fs "/sys/a") = Some (-5) /\
  state <$> attrs policy_world = [1] /\
  on_record (mkIno 5 2 0, fs) policy_world =
    (tt, mkWorld (attrs policy_world) 0
           [c_open "/sys/a" 3; c_read 3 7 2; c_close 3]).
Proof. repeat split. Qed.

(** A negative result of the re-read leaves the world as the read left it. *)
Lemma negative_reread_retained ie fs w i a :
  wd_owner (ie_wd ie) (attrs w) = Some (i, a) ->
  (read_bool fs (path a) w).1 < 0 ->
  on_record (ie, fs) w = (tt, (read_bool fs (path a) w).2).
Proof.
  intros Hown. rewrite read_bool_run. cbn [fst snd]. intros Hneg.
  rewrite (record_owner _ _ _ _ _ Hown). cbn zeta.
  destruct (Z.leb_spec 0 (read_value (fs (path a)))); [lia|reflexivity].
Qed.

(** ** What the event loop may store *)

Lemma stored_ok_refl w : stored_ok w w.
Proof. split; [reflexivity | now left]. Qed.

Lemma stored_ok_trans w1 w2 w3 :
  stored_ok w1 w2 -> stored_ok w2 w3 -> stored_ok w1 w3.
Proof.
  intros [Hl12 H12] [Hl23 H23]. split; [congruence|].
  intros i. destruct (H23 i) as [Heq|Hpos]; [|now right].
  rewrite Heq. apply H12.
Qed.

Lemma stored_ok_append cs w : stored_ok w (append_log cs w).
Proof. split; [reflexivity | now left]. Qed.

Create HintDb stored.
Local Hint Resolve stored_ok_refl stored_ok_append : stored.

Lemma wd_owner_lookup d l i a :
  wd_owner d l = Some (i, a) -> l !! i = Some a /\ wd a = d.
Proof. intros (? & ? & _)%list_find_Some. now split. Qed.

Lemma record_step_stored_ok r w : stored_ok w (record_step r w).
Proof.
  unfold record_step.
  destruct (wd_owner (ie_wd (r.1)) (attrs w)) as [[i a]|] eqn:Hown;
    [|apply stored_ok_refl].
  apply wd_owner_lookup in Hown as [Hlk _].
  cbn zeta.
  destruct (Z.leb_spec 0 (read_value (r.2 (path a)))) as [Hv|Hv]; simpl;
    [|auto with stored].
  destruct (negb _); [|auto with stored].
  split; simpl.
  - apply length_insert.
  - intros j. destruct (decide (i = j)) as [->|Hne].
    + right. rewrite list_lookup_total_insert_eq
        by (eapply lookup_lt_Some; eassumption).
      exact Hv.
    + left. now rewrite list_lookup_total_insert_ne.
Qed.

Lemma records_step_stored_ok recs : forall w, stored_ok w (records_step recs w).
Proof.
  induction recs as [|r recs IH]; intros w; simpl.
  - apply stored_ok_refl.
  - eapply stored_ok_trans; [apply record_step_stored_ok | apply IH].
Qed.

Lemma x_part_attrs wk b w : attrs (x_part wk b w) = attrs w.
Proof. unfold x_part. now destruct b. Qed.

Lemma ino_part_stored_ok wk b w : stored_ok w (ino_part wk b w).
Proof.
  unfold ino_part. destruct b; [|auto with stored].
  destruct (0 <? _); [|auto with stored].
  eapply stored_ok_trans; [|apply records_step_stored_ok]. auto with stored.
Qed.

Lemma event_loop_stored_ok wakes : forall w, stored_ok w (event_loop wakes w).2.
Proof.
  induction wakes as [|wk wakes IH]; intros w.
  - apply stored_ok_refl.
  - destruct (wk_select wk) as [errno|xr ir] eqn:Hsel.
    + destruct (decide (errno = EINTR)) as [->|Hne].
      * rewrite (event_loop_eintr _ _ _ Hsel).
        eapply stored_ok_trans; [|apply IH]. auto with stored.
      * rewrite (event_loop_fatal _ _ _ _ Hsel Hne). cbn [snd]. auto with stored.
    + rewrite (event_loop_ready _ _ _ _ _ Hsel).
      eapply stored_ok_trans; [|apply IH].
      eapply stored_ok_trans; [|apply ino_part_stored_ok].
      split; [now rewrite x_part_attrs|]. intros i. left. now rewrite x_part_attrs.
Qed.

(** C10.  In notification handling a negative result of the re-read, be it
    the -1 of a failed open or read or a negative integer in the source, is
    handled as a failed read: the cached state is retained and nothing is
    drawn (the world changes by the calls of the read alone).  Hence, however
    long the loop runs, each cached state is the one the loop started with or
    a non-negative value. *)
Theorem negative_reread_never_stored :
  (forall ie fs w i a,
     wd_owner (ie_wd ie) (attrs w) = Some (i, a) ->
     (read_bool fs (path a) w).1 < 0 ->
     on_record (ie, fs) w =
       (tt, append_log (read_calls (path a) (fs (path a))) w)) /\
  (forall (fs : FS) p w, unreadable (fs p) -> (read_bool fs p w).1 = -1) /\
  (forall (fs : FS) p w v, parsed (fs p) = Some v -> (read_bool fs p w).1 = v) /\
  (forall wakes w (i : nat),
     state (attrs (event_loop wakes w).2 !!! i) = state (attrs w !!! i)
     \/ 0 <= state (attrs (event_loop wakes w).2 !!! i)).
Proof.
  split; [|split; [|split]].
  - intros ie fs w i a Hown Hneg.
    rewrite (negative_reread_retained _ _ _ _ _ Hown Hneg).
    now rewrite read_bool_run.
  - intros fs p w Hun. rewrite read_bool_run. cbn [fst].
    destruct (fs p); [reflexivity | reflexivity | destruct Hun].
  - intros fs p w v Hp. rewrite read_bool_run. cbn [fst].
    unfold read_value. now rewrite Hp.
  - intros wakes w i. apply (event_loop_stored_ok wakes w).
Qed.

Lemma negative_reread_never_stored_witness :
  wd_owner 5 (attrs policy_world)
    = Some (0%nat, mkAttr "/sys/a" "A" 0 16711680 2105376 1 5 9) /\
  (read_bool (λ _, content 3 "-5") "/sys/a" policy_world).1 < 0 /\
  unreadable open_fails /\
  parsed (content 3 "-5") = Some (-5) /\
  on_record (mkIno 5 2 0, λ _, content 3 "-5") policy_world =
    (tt, append_log [c_open "/sys/a" 3; c_read 3 7 2; c_close 3] policy_world) /\
  (read_bool (λ _, open_fails) "/sys/a" policy_world).1 = -1 /\
  (read_bool (λ _, content 3 "-5") "/sys/a" policy_world).1 = -5.
Proof.
  destruct negative_reread_never_stored as (Hneg & Hfail & Hval & _).
  split; [reflexivity|]. split; [vm_compute; reflexivity|].
  split; [exact I|]. split; [reflexivity|].
  split; [|split].
  - apply (Hneg (mkIno 5 2 0) (λ _, content 3 "-5") policy_world 0%nat
             (mkAttr "/sys/a" "A" 0 16711680 2105376 1 5 9) eq_refl).
    vm_compute. reflexivity.
  - apply (Hfail (λ _, open_fails) "/sys/a" policy_world). exact I.
  - apply (Hval (λ _, content 3 "-5") "/sys/a" policy_world (-5)). reflexivity.
Defined.

(** ** Redraws and state transitions *)

Lemma redraws_app window cs ds :
  redraws window (cs ++ ds) = (redraws window cs + redraws window ds)%nat.
Proof. unfold redraws. now rewrite List.filter_app, length_app. Qed.

Lemma redraws_read_calls window p s : redraws window (read_calls p s) = 0%nat.
Proof. now destruct s. Qed.

Lemma redraws_icon_calls window a :
  redraws window (icon_calls a) = if win a =? window then 1%nat else 0%nat.
Proof.
  unfold icon_calls, redraws. cbn [app List.filter is_draw_on].
  destruct (win a =? window); destruct (truthy (state a)); reflexivity.
Qed.

Lemma record_step_wins r w : win <$> attrs (record_step r w) = win <$> attrs w.
Proof.
  unfold record_step.
  destruct (wd_owner _ _) as [[j b]|] eqn:Hown; [|reflexivity].
  apply wd_owner_lookup in Hown as [Hlk _]. cbn zeta.
  destruct (_ && _); [|reflexivity].
  cbn [attrs append_log with_attrs].
  rewrite list_fmap_insert. cbn [win set_state].
  apply list_insert_id. now rewrite list_lookup_fmap, Hlk.
Qed.

Lemma NoDup_win_inj (l : list Attr) i j a b :
  NoDup (win <$> l) -> l !! i = Some a -> l !! j = Some b -> win a = win b -> i = j.
Proof.
  intros Hnd Hi Hj Hw.
  eapply NoDup_lookup; [exact Hnd| |].
  - rewrite list_lookup_fmap, Hi. reflexivity.
  - rewrite list_lookup_fmap, Hj. simpl. now rewrite Hw.
Qed.

(** One record: the icon of descriptor [i] is drawn once if its cached state
    changes, and not at all otherwise. *)
Lemma record_step_redraws r w i a :
  attrs w !! i = Some a ->
  NoDup (win <$> attrs w) ->
  redraws (win a) (log (record_step r w)) =
    (redraws (win a) (log w)
     + if (state (attrs (record_step r w) !!! i) =? state (attrs w !!! i))%Z
       then 0 else 1)%nat.
Proof.
  intros Hi Hnd. unfold record_step.
  destruct (wd_owner _ _) as [[j b]|] eqn:Hown.
  2:{ rewrite Z.eqb_refl. lia. }
  apply wd_owner_lookup in Hown as [Hj _]. cbn zeta.
  set (v := read_value (r.2 (path b))).
  destruct ((0 <=? v) && negb (v =? state b)) eqn:Hupd;
    cbn [attrs log append_log with_attrs].
  2:{ rewrite Z.eqb_refl, redraws_app, redraws_read_calls. lia. }
  apply andb_prop in Hupd as [_ Hne]. apply negb_true_iff in Hne.
  rewrite !redraws_app, redraws_read_calls, redraws_icon_calls. cbn [win set_state].
  rewrite (list_lookup_total_correct _ _ _ Hi).
  destruct (decide (j = i)) as [->|Hji].
  - assert (b = a) as -> by congruence.
    rewrite list_lookup_total_insert_eq by (eapply lookup_lt_Some; eassumption).
    cbn [state set_state]. rewrite Z.eqb_refl, Hne. lia.
  - rewrite list_lookup_total_insert_ne by exact Hji.
    rewrite (list_lookup_total_correct _ _ _ Hi), Z.eqb_refl.
    destruct (Z.eqb_spec (win b) (win a)) as [Hw|_]; [|lia].
    exfalso. apply Hji. eapply NoDup_win_inj; eassumption.
Qed.

Lemma record_step_lookup r w i a :
  attrs w !! i = Some a ->
  exists a', attrs (record_step r w) !! i = Some a' /\ win a' = win a.
Proof.
  intros Hi. pose proof (record_step_wins r w) as Hw.
  assert (Hl : (win <$> attrs (record_step r w)) !! i = Some (win a))
    by (rewrite Hw, list_lookup_fmap, Hi; reflexivity).
  rewrite list_lookup_fmap in Hl.
  destruct (attrs (record_step r w) !! i) as [a'|]; [|discriminate].
  exists a'. split; [reflexivity | now injection Hl].
Qed.

Lemma wd_owner_set_state d l i a v :
  wd_owner d l = Some (i, a) ->
  wd_owner d (<[i := set_state v a]> l) = Some (i, set_state v a).
Proof.
  unfold wd_owner. intros (Hlk & Hwd & Hmin)%list_find_Some.
  apply list_find_Some. split; [|split].
  - apply list_lookup_insert_eq. eapply lookup_lt_Some; eassumption.
  - exact Hwd.
  - intros j y Hj Hlt. rewrite list_lookup_insert_ne in Hj by lia.
    eapply Hmin; eassumption.
Qed.

Lemma record_step_change (r : InotifyEvent * FS) w i a v :
  wd_owner (ie_wd (r.1)) (attrs w) = Some (i, a) ->
  read_value (r.2 (path a)) = v -> 0 <= v -> v <> state a ->
  record_step r w =
    append_log (read_calls (path a) (r.2 (path a)) ++ icon_calls (set_state v a))
      (with_attrs (<[i := set_state v a]> (attrs w)) w).
Proof.
  intros Hown Hv Hpos Hne. unfold record_step. rewrite Hown. cbn zeta. rewrite Hv.
  destruct (Z.leb_spec 0 v); [|lia].
  destruct (Z.eqb_spec v (state a)); [contradiction|reflexivity].
Qed.

Lemma icon_calls_zero a :
  state a = 0 ->
  icon_calls a = [c_XCreateGC (win a); c_XSetForeground (bg_inactive a);
                  c_XFillRectangle (win a) 0 0 24 24; c_XFreeGC; c_XSync].
Proof. intros H. unfold icon_calls, truthy. now rewrite H. Qed.

Lemma icon_calls_nonzero a :
  state a <> 0 ->
  icon_calls a = [c_XCreateGC (win a); c_XSetForeground (bg_active a);
                  c_XFillRectangle (win a) 0 0 24 24;
                  c_XSetForeground (fg a);
                  c_XDrawString (win a) 3 16 (label a) (Libc.strlen (label a));
                  c_XFreeGC; c_XSync].
Proof.
  intros H. unfold icon_calls, truthy.
  destruct (Z.eqb_spec (state a) 0); [contradiction|reflexivity].
Qed.

(** A source that goes to 1 and then to 0, one record each: the icon is
    drawn as active, then as inactive. *)
Lemma one_then_zero ie1 ie2 (fs1 fs2 : FS) w i a :
  wd_owner (ie_wd ie1) (attrs w) = Some (i, a) ->
  ie_wd ie2 = ie_wd ie1 ->
  parsed (fs1 (path a)) = Some 1 ->
  parsed (fs2 (path a)) = Some 0 ->
  state a <> 1 ->
  on_records [(ie1, fs1); (ie2, fs2)] w =
    (tt, with_attrs (<[i := set_state 0 a]> (attrs w))
           (append_log
              (read_calls (path a) (fs1 (path a))
               ++ [c_XCreateGC (win a); c_XSetForeground (bg_active a);
                   c_XFillRectangle (win a) 0 0 24 24;
                   c_XSetForeground (fg a);
                   c_XDrawString (win a) 3 16 (label a) (Libc.strlen (label a));
                   c_XFreeGC; c_XSync]
               ++ read_calls (path a) (fs2 (path a))
               ++ [c_XCreateGC (win a); c_XSetForeground (bg_inactive a);
                   c_XFillRectangle (win a) 0 0 24 24; c_XFreeGC; c_XSync]) w)).
Proof.
  intros Hown Hwd H1 H0 Hne.
  rewrite on_records_run. unfold records_step. cbn [foldl].
  rewrite (record_step_change (ie1, fs1) w i a 1 Hown)
    by (cbn [snd]; unfold read_value; rewrite ?H1; cbn; congruence || lia).
  set (w1 := append_log _ _).
  assert (Hown' : wd_owner (ie_wd ie2) (attrs w1) = Some (i, set_state 1 a))
    by (subst w1; cbn [attrs append_log with_attrs]; rewrite Hwd;
        now apply wd_owner_set_state).
  rewrite (record_step_change (ie2, fs2) w1 i (set_state 1 a) 0 Hown')
    by (cbn [snd path set_state state]; unfold read_value; rewrite ?H0; cbn; lia).
  subst w1. cbn [snd path set_state].
  rewrite (icon_calls_nonzero (set_state 1 a)) by (cbn; lia).
  rewrite (icon_calls_zero (set_state 0 _)) by reflexivity.
  unfold append_log, with_attrs. cbn [attrs next_xid log fst snd win fg label
    bg_active bg_inactive set_state].
  rewrite list_insert_insert_eq. rewrite <- !app_assoc. reflexivity.
Qed.

Lemma bind_pointwise {A B} (g h : A -> list B) (l : list A) :
  (forall a, g a = h a) -> l ≫= g = l ≫= h.
Proof.
  intros Hgh. induction l as [|a l IH]; [reflexivity|].
  now rewrite !bind_cons, Hgh, IH.
Qed.

(** *** Counting against the values the re-reads yield *)

Lemma record_step_fields r w :
  set_state 0 <$> attrs (record_step r w) = set_state 0 <$> attrs w.
Proof.
  unfold record_step.
  destruct (wd_owner _ _) as [[i a]|] eqn:Hown; [|reflexivity].
  apply wd_owner_lookup in Hown as [Hlk _]. cbn zeta.
  destruct (_ && _); [|reflexivity].
  cbn [attrs append_log with_attrs]. rewrite list_fmap_insert.
  apply list_insert_id. now rewrite list_lookup_fmap, Hlk.
Qed.

Lemma wd_owner_fmap d (l : list Attr) :
  wd_owner d (set_state 0 <$> l) = prod_map id (set_state 0) <$> wd_owner d l.
Proof.
  unfold wd_owner. induction l as [|a l IH]; [reflexivity|].
  cbn [fmap list_fmap list_find]. cbn [wd set_state].
  destruct (decide (wd a = d)); [reflexivity|].
  change (list_fmap Attr Attr (set_state 0) l) with (set_state 0 <$> l).
  rewrite IH. now destruct (list_find _ l) as [[j b]|].
Qed.

(** Which descriptor a watch descriptor resolves to, and the path that is
    then read, do not depend on the cached states. *)
Lemma observed_fields i (l l' : list Attr) recs :
  set_state 0 <$> l' = set_state 0 <$> l -> observed i l' recs = observed i l recs.
Proof.
  intros Hsame. unfold observed. apply bind_pointwise. intros r.
  pose proof (wd_owner_fmap (ie_wd (r.1)) l') as H'.
  pose proof (wd_owner_fmap (ie_wd (r.1)) l) as H.
  rewrite Hsame, H in H'.
  destruct (wd_owner (ie_wd (r.1)) l') as [[j' b']|];
    destruct (wd_owner (ie_wd (r.1)) l) as [[j b]|];
    cbn in H'; try discriminate; [|reflexivity].
  unfold set_state in H'.
  assert (j' = j) as -> by congruence.
  assert (Hp : path b' = path b) by congruence.
  now rewrite Hp.
Qed.

Lemma last_app_default {A} (l1 l2 : list A) d :
  List.last (l1 ++ l2) d = List.last l2 (List.last l1 d).
Proof.
  revert d. induction l1 as [|x l1 IH]; intros d; [reflexivity|].
  destruct l1 as [|y l1].
  - cbn [app]. destruct l2 as [|z l2]; [reflexivity|].
    change (List.last (x :: z :: l2) d) with (List.last (z :: l2) d).
    cbn [List.last]. clear. revert z. induction l2 as [|u l2 IH]; intros z; [reflexivity|].
    change (List.last (z :: u :: l2) d) with (List.last (u :: l2) d).
    change (List.last (z :: u :: l2) x) with (List.last (u :: l2) x).
    apply IH.
  - change (List.last ((x :: y :: l1) ++ l2) d) with (List.last ((y :: l1) ++ l2) d).
    change (List.last (x :: y :: l1) d) with (List.last (y :: l1) d).
    apply IH.
Qed.

Lemma last_cons_default {A} (l : list A) v d :
  List.last (v :: l) d = List.last l v.
Proof.
  destruct l as [|z l]; [reflexivity|].
  change (List.last (v :: z :: l) d) with (List.last (z :: l) d).
  revert z. induction l as [|u l IH]; intros z; [reflexivity|].
  change (List.last (z :: u :: l) d) with (List.last (u :: l) d).
  change (List.last (z :: u :: l) v) with (List.last (u :: l) v).
  apply IH.
Qed.

Lemma value_changes_app s l1 l2 :
  value_changes s (l1 ++ l2)
  = (value_changes s l1 + value_changes (List.last l1 s) l2)%nat.
Proof.
  revert s. induction l1 as [|v l1 IH]; intros s; [reflexivity|].
  cbn [app value_changes]. rewrite IH.
  rewrite (last_cons_default l1 v s). lia.
Qed.

Lemma set_state_same a : set_state (state a) a = a.
Proof. now destruct a. Qed.

(** One record, seen from descriptor [i]: its state afterwards is the value
    read when that value is accepted, and its state before otherwise. *)
Lemma record_step_at r w (i : nat) a :
  attrs w !! i = Some a ->
  let vs := accepted (observed i (attrs w) [r]) in
  attrs (record_step r w) !! i = Some (set_state (List.last vs (state a)) a) /\
  value_changes (state a) vs
  = (if List.last vs (state a) =? state a then 0%nat else 1%nat).
Proof.
  intros Hi. cbn zeta. unfold observed. rewrite bind_singleton. unfold record_step.
  unfold FS in *.
  destruct (wd_owner (ie_wd (r.1)) (attrs w)) as [[j b]|] eqn:Hown.
  2:{ cbn [accepted List.filter List.last value_changes].
      rewrite set_state_same, Z.eqb_refl. now split. }
  apply wd_owner_lookup in Hown as [Hj _].
  destruct (decide (j = i)) as [->|Hji].
  - assert (b = a) as -> by congruence. cbn zeta.
    set (v := read_value (r.2 (path a))).
    unfold accepted. cbn [List.filter].
    destruct (Z.leb_spec 0 v) as [Hv|Hv]; cbn [andb List.last value_changes].
    + destruct (Z.eqb_spec v (state a)) as [Heq|Hne]; cbn [negb].
      * rewrite Heq, set_state_same. now split.
      * cbn [attrs append_log with_attrs]. split; [|reflexivity].
        apply list_lookup_insert_eq. eapply lookup_lt_Some; eassumption.
    + rewrite set_state_same, Z.eqb_refl. now split.
  - cbn zeta. cbn [accepted List.filter List.last value_changes].
    rewrite set_state_same, Z.eqb_refl. split; [|reflexivity].
    destruct (_ && _); cbn [attrs append_log with_attrs]; [|exact Hi].
    rewrite list_lookup_insert_ne by exact Hji. exact Hi.
Qed.

Lemma records_count recs : forall w (i : nat) a,
  attrs w !! i = Some a ->
  NoDup (win <$> attrs w) ->
  let vs := accepted (observed i (attrs w) recs) in
  redraws (win a) (log (records_step recs w))
  = (redraws (win a) (log w) + value_changes (state a) vs)%nat /\
  attrs (records_step recs w) !! i = Some (set_state (List.last vs (state a)) a).
Proof.
  induction recs as [|r recs IH]; intros w i a Hi Hnd; cbn zeta.
  - cbn. rewrite set_state_same. split; [lia | exact Hi].
  - change (records_step (r :: recs) w) with (records_step recs (record_step r w)).
    assert (Hobs : observed i (attrs w) (r :: recs)
                   = observed i (attrs w) [r] ++ observed i (attrs w) recs).
    { unfold observed. rewrite bind_cons, bind_singleton. reflexivity. }
    rewrite Hobs. unfold accepted. rewrite List.filter_app.
    fold (accepted (observed i (attrs w) [r])).
    fold (accepted (observed i (attrs w) recs)).
    destruct (record_step_at r w i a Hi) as [Hat Hch]. cbn zeta in Hat, Hch.
    set (vs1 := accepted (observed i (attrs w) [r])) in *.
    set (a1 := set_state (List.last vs1 (state a)) a) in *.
    assert (Hnd1 : NoDup (win <$> attrs (record_step r w)))
      by (now rewrite record_step_wins).
    destruct (IH (record_step r w) i a1 Hat Hnd1) as [Hred Hfin]. cbn zeta in Hred, Hfin.
    rewrite (observed_fields i (attrs w) _ recs (record_step_fields r w)) in Hred, Hfin.
    change (win a1) with (win a) in Hred. change (state a1) with (List.last vs1 (state a)) in Hred, Hfin.
    rewrite value_changes_app, last_app_default. split.
    + rewrite Hred, (record_step_redraws r w i a Hi Hnd), Hch.
      rewrite (list_lookup_total_correct _ _ _ Hat), (list_lookup_total_correct _ _ _ Hi).
      subst a1. cbn [state set_state]. lia.
    + rewrite Hfin. subst a1. now destruct a.
Qed.

(** C5, as the code has it.  Take the values the re-reads of a descriptor
    yield over any sequence of records handled one after the other, and
    leave out the negative ones (a failed read gives -1).  The number of
    times the icon of the descriptor is drawn is the number of places at
    which the sequence made of its cached state and of those values changes,
    and its cached state at the end is the last of them.  A record whose
    re-read gives the cached value draws nothing; a source going to 1 and
    then to 0, one record each, gives two draws, the first as active and the
    second as inactive. *)
Theorem redraws_count_value_changes :
  (forall recs w (i : nat) a,
     attrs w !! i = Some a ->
     NoDup (win <$> attrs w) ->
     let vs := accepted (observed i (attrs w) recs) in
     redraws (win a) (log (on_records recs w).2)
     = (redraws (win a) (log w) + value_changes (state a) vs)%nat /\
     attrs (on_records recs w).2 !! i
     = Some (set_state (List.last vs (state a)) a)) /\
  (forall ie fs w i a,
     wd_owner (ie_wd ie) (attrs w) = Some (i, a) ->
     (read_bool fs (path a) w).1 = state a ->
     on_record (ie, fs) w = (tt, (read_bool fs (path a) w).2)) /\
  (forall ie1 ie2 (fs1 fs2 : FS) w i a,
     wd_owner (ie_wd ie1) (attrs w) = Some (i, a) ->
     ie_wd ie2 = ie_wd ie1 ->
     parsed (fs1 (path a)) = Some 1 ->
     parsed (fs2 (path a)) = Some 0 ->
     state a <> 1 ->
     on_records [(ie1, fs1); (ie2, fs2)] w =
       (tt, with_attrs (<[i := set_state 0 a]> (attrs w))
              (append_log
                 (read_calls (path a) (fs1 (path a))
                  ++ [c_XCreateGC (win a); c_XSetForeground (bg_active a);
                      c_XFillRectangle (win a) 0 0 24 24;
                      c_XSetForeground (fg a);
                      c_XDrawString (win a) 3 16 (label a) (Libc.strlen (label a));
                      c_XFreeGC; c_XSync]
                  ++ read_calls (path a) (fs2 (path a))
                  ++ [c_XCreateGC (win a); c_XSetForeground (bg_inactive a);
                      c_XFillRectangle (win a) 0 0 24 24; c_XFreeGC; c_XSync])
                 w))).
Proof.
  split; [|split].
  - intros recs w i a Hi Hnd. rewrite on_records_run. cbn [snd].
    now apply records_count.
  - intros ie fs w i a Hown. rewrite read_bool_run. cbn [fst snd]. intros Hsame.
    rewrite (record_owner _ _ _ _ _ Hown). cbn zeta.
    rewrite Hsame, Z.eqb_refl, andb_false_r. reflexivity.
  - intros. now apply one_then_zero.
Qed.

Lemma redraws_count_value_changes_witness :
  let a0 := mkAttr "/sys/a" "A" 0 16711680 2105376 0 5 9 in
  let one : FS := λ _, content 3 ("1" +:+ newline) in
  let zero : FS := λ _, content 3 ("0" +:+ newline) in
  let minus : FS := λ _, content 3 "-5" in
  let gone : FS := λ _, open_fails in
  let ie := mkIno 5 2 0 in
  let recs := [(ie, one); (ie, one); (ie, minus); (ie, gone); (ie, zero); (ie, zero)] in
  (attrs idle_world !! 0%nat = Some a0 /\
   NoDup (win <$> attrs idle_world) /\
   wd_owner 5 (attrs idle_world) = Some (0%nat, a0) /\
   (read_bool zero "/sys/a" idle_world).1 = state a0 /\
   parsed (one "/sys/a") = Some 1 /\ parsed (zero "/sys/a") = Some 0 /\
   state a0 <> 1) /\
  observed 0 (attrs idle_world) recs = [1; 1; -5; -1; 0; 0] /\
  redraws 9 (log (on_records recs idle_world).2) = 2%nat /\
  attrs (on_records recs idle_world).2 !! 0%nat = Some a0 /\
  on_record (ie, zero) idle_world =
    (tt, append_log [c_open "/sys/a" 3; c_read 3 7 2; c_close 3] idle_world) /\
  on_records [(ie, one); (ie, zero)] idle_world =
    (tt, mkWorld [a0] 0
           [c_open "/sys/a" 3; c_read 3 7 2; c_close 3;
            c_XCreateGC 9; c_XSetForeground 16711680; c_XFillRectangle 9 0 0 24 24;
            c_XSetForeground 0; c_XDrawString 9 3 16 "A" 1; c_XFreeGC; c_XSync;
            c_open "/sys/a" 3; c_read 3 7 2; c_close 3;
            c_XCreateGC 9; c_XSetForeground 2105376; c_XFillRectangle 9 0 0 24 24;
            c_XFreeGC; c_XSync]).
Proof.
  intros a0 one zero minus gone ie recs.
  assert (Hnd : NoDup (win <$> attrs idle_world)) by apply NoDup_singleton.
  assert (Hne : state a0 <> 1) by (simpl; lia).
  destruct redraws_count_value_changes as (Hcount & Hsame & Hscen).
  destruct (Hcount recs idle_world 0%nat a0 eq_refl Hnd) as [Hred Hfin].
  split; [repeat split; try reflexivity; assumption|].
  split; [vm_compute; reflexivity|].
  split; [|split; [|split]].
  - etransitivity; [exact Hred | vm_compute; reflexivity].
  - etransitivity; [exact Hfin | vm_compute; reflexivity].
  - etransitivity;
      [apply (Hsame ie zero idle_world 0%nat a0 eq_refl eq_refl) | reflexivity].
  - etransitivity;
      [apply (Hscen ie ie one zero idle_world 0%nat a0 eq_refl eq_refl eq_refl
                eq_refl Hne) | reflexivity].
Defined.

(** C5, the input on which the claim fails: the cached state is 1 and the
    re-read yields -5, so the values observed change once, and the icon is
    not drawn. *)
Lemma observed_change_without_redraw :
  let recs := [(mkIno 5 2 0, (λ _, content 3 "-5") : FS)] in
  state <$> attrs policy_world = [1] /\
  observed 0 (attrs policy_world) recs = [-5] /\
  value_changes 1 (observed 0 (attrs policy_world) recs) = 1%nat /\
  redraws 9 (log (on_records recs policy_world).2) = 0%nat.
Proof. vm_compute. repeat split. Qed.


(** ** Order of the two halves of a turn of the loop *)













(** ** [main]: how it ends *)

Lemma event_loop_app before : forall w rest,
  (event_loop before w).1 = loop_blocked ->
  event_loop (before ++ rest) w = event_loop rest (event_loop before w).2.
Proof.
  induction before as [|wk before IH]; intros w rest Hblocked.
  - reflexivity.
  - rewrite <- app_comm_cons.
    destruct (wk_select wk) as [errno|xr ir] eqn:Hsel.
    + destruct (decide (errno = EINTR)) as [->|Hne].
      * rewrite (event_loop_eintr _ before _ Hsel) in *.
        rewrite (event_loop_eintr _ (before ++ rest) _ Hsel). now apply IH.
      * rewrite (event_loop_fatal _ _ _ _ Hsel Hne) in Hblocked. discriminate.
    + rewrite (event_loop_ready _ before _ _ _ Hsel) in *.
      rewrite (event_loop_ready _ (before ++ rest) _ _ _ Hsel). now apply IH.
Qed.

(** [main] either ends with code 1 before the loop, whatever [select] would
    return, or reaches the loop in a world [w1] that does not depend on what
    [select] returns. *)
Lemma main_startup env argv w :
  (((length argv < 2)%nat \/ e_display env = false \/ e_ino_fd env < 0) /\
   exists w', forall wakes, main env argv wakes w = (Some 1, w'))
  \/
  ((2 <= length argv)%nat /\ e_display env = true /\ 0 <= e_ino_fd env /\
   exists w1, forall wakes,
     main env argv wakes w =
       (match (event_loop wakes w1).1 with
        | loop_break => Some 0
        | loop_blocked => None
        end, (event_loop wakes w1).2)).
Proof.
  unfold main.
  destruct (Z.ltb_spec (Z.of_nat (length argv)) 2) as [Hargc|Hargc].
  { left. split; [left; lia|]. eexists. intros wakes. reflexivity. }
  unfold bind.
  destruct (alloc_attrs _ w) as [[] w1].
  destruct (n_attr w1) as [n w2].
  destruct (for_up n 0 (parse_body env argv) w2) as [[] w3].
  destruct (emit (c_XOpenDisplay (e_display env)) w3) as [[] w4].
  destruct (e_display env) eqn:Hdpy; cbn [negb].
  2:{ left. split; [right; now left|]. eexists. intros wakes. reflexivity. }
  destruct (emit (c_XInternAtom "_XEMBED_INFO") w4) as [[] w5].
  destruct (emit (c_XInternAtom "_NET_SYSTEM_TRAY_OPCODE") w5) as [[] w6].
  destruct (startup_windows env w6) as [[] w7].
  destruct (emit (c_inotify_init1 (e_ino_fd env)) w7) as [[] w8].
  destruct (Z.ltb_spec (e_ino_fd env) 0) as [Hino|Hino].
  { left. split; [right; now right|]. eexists. intros wakes. reflexivity. }
  destruct (n_attr w8) as [n' w9].
  destruct (for_up n' 0 (watch_body env) w9) as [[] w10].
  right. repeat (split; [reflexivity || lia|]).
  exists w10. intros wakes.
  destruct (event_loop wakes w10) as [[|] w11]; reflexivity.
Qed.

Lemma main_usage env argv wakes w :
  (length argv < 2)%nat ->
  main env argv wakes w =
    (Some 1,
     append_log [c_fprintf_stderr
                   ("Usage: " +:+ default "(null)" (argv !! 0%nat)
                      +:+ " PATH:LABEL:FG:BG1:BG0 [...]" +:+ newline)] w).
Proof.
  intros Hargc. unfold main.
  destruct (Z.ltb_spec (Z.of_nat (length argv)) 2) as [_|Hge]; [|lia].
  reflexivity.
Qed.

(** C8.  The process exits with code 1 exactly when it is started with no
    positional argument, when [XOpenDisplay] fails, or when [inotify_init1]
    fails; in the first case all it does is print the usage line on the
    error stream, with the program name, or with [(null)] in its place when
    [argv] is empty and [argv[0]] is the null pointer. *)
Theorem exit_code_one (env : Env) (argv : list string) (wakes : list Wake) :
  ((run env argv wakes).1 = Some 1 <->
   (length argv < 2)%nat \/ e_display env = false \/ e_ino_fd env < 0) /\
  ((length argv < 2)%nat ->
   run env argv wakes =
     (Some 1,
      mkWorld [] (e_xid env)
        [c_fprintf_stderr
           ("Usage: " +:+ default "(null)" (argv !! 0%nat)
              +:+ " PATH:LABEL:FG:BG1:BG0 [...]" +:+ newline)])).
Proof.
  unfold run. split.
  - destruct (main_startup env argv (boot env))
      as [(Hfail & w' & Hrun) | (Hargc & Hdpy & Hino & w1 & Hrun)];
      rewrite (Hrun wakes); cbn [fst].
    + split; [intros _; exact Hfail | reflexivity].
    + split.
      * destruct ((event_loop wakes w1).1); discriminate.
      * intros [?|[?|?]]; [lia | congruence | lia].
  - intros Hargc. now rewrite main_usage.
Qed.

Lemma exit_code_one_witness :
  let env := mkEnv (λ _, open_fails) true 0 0 100 4 (λ _, 1) "" in
  (length ["key-indicator"] < 2)%nat /\
  run env ["key-indicator"] [] =
    (Some 1,
     mkWorld [] 100
       [c_fprintf_stderr
          ("Usage: key-indicator PATH:LABEL:FG:BG1:BG0 [...]" +:+ newline)]).
Proof.
  intros env. assert (H : (length ["key-indicator"] < 2)%nat) by (simpl; lia).
  split; [exact H|].
  etransitivity;
    [apply (proj2 (exit_code_one env ["key-indicator"] []) H) | reflexivity].
Defined.

(** Started without even a program name. *)
Example usage_without_program_name :
  run demo_env [] [wake_expose] =
    (Some 1,
     mkWorld [] 100
       [c_fprintf_stderr ("Usage: (null) PATH:LABEL:FG:BG1:BG0 [...]" +:+ newline)]).
Proof. reflexivity. Qed.

(** ** The readiness wait *)

(** C7.  When [select] fails with [EINTR] the loop goes back to [select]
    without doing anything else.  When it fails with another error the loop
    is left after [perror]; [main] then returns 0: the last calls of the
    process are that [select] and that [perror], nothing is closed or
    destroyed, and what [select] would have returned later plays no part. *)
Theorem wait_failure_handling :
  (forall wk wakes w,
     wk_select wk = select_fails EINTR ->
     event_loop (wk :: wakes) w = event_loop wakes (append_log [c_select (-1)] w)) /\
  (forall wk wakes w errno,
     wk_select wk = select_fails errno -> errno <> EINTR ->
     event_loop (wk :: wakes) w =
       (loop_break, append_log [c_select (-1); c_perror "select"] w)) /\
  (forall env argv before wk after errno,
     (run env argv before).1 = None ->
     wk_select wk = select_fails errno -> errno <> EINTR ->
     run env argv (before ++ wk :: after) =
       (Some 0,
        append_log [c_select (-1); c_perror "select"] (run env argv before).2)).
Proof.
  split; [|split].
  - intros. now apply event_loop_eintr.
  - intros. now apply event_loop_fatal with errno.
  - intros env argv before wk after errno Hwait Hsel Hne. unfold run in *.
    destruct (main_startup env argv (boot env))
      as [(_ & w' & Hrun) | (_ & _ & _ & w1 & Hrun)].
    + rewrite (Hrun before) in Hwait. discriminate.
    + rewrite (Hrun before) in Hwait. rewrite !Hrun. cbn [fst snd] in *.
      assert (Hblocked : (event_loop before w1).1 = loop_blocked)
        by (destruct ((event_loop before w1).1); [discriminate|reflexivity]).
      rewrite (event_loop_app before w1 (wk :: after) Hblocked).
      now rewrite (event_loop_fatal _ _ _ _ Hsel Hne).
Qed.

Lemma wait_failure_handling_witness :
  (wk_select wake_eintr = select_fails EINTR /\
   wk_select wake_ebadf = select_fails 9 /\ 9 <> EINTR /\
   (run demo_env demo_argv [wake_eintr]).1 = None) /\
  event_loop [wake_eintr; wake_eintr] idle_world =
    (loop_blocked, append_log [c_select (-1); c_select (-1)] idle_world) /\
  event_loop [wake_ebadf; wake_expose] idle_world =
    (loop_break, append_log [c_select (-1); c_perror "select"] idle_world) /\
  run demo_env demo_argv ([wake_eintr] ++ wake_ebadf :: [wake_expose]) =
    (Some 0,
     append_log [c_select (-1); c_perror "select"]
       (run demo_env demo_argv [wake_eintr]).2).
Proof.
  assert (Hne : 9 <> EINTR) by (intros [=]).
  assert (Hwait : (run demo_env demo_argv [wake_eintr]).1 = None)
    by (vm_compute; reflexivity).
  destruct wait_failure_handling as (Heintr & Hfatal & Hexit).
  split; [repeat split; try reflexivity; assumption|].
  split; [|split].
  - etransitivity; [apply (Heintr wake_eintr [wake_eintr] idle_world eq_refl)|].
    vm_compute. reflexivity.
  - apply (Hfatal wake_ebadf [wake_expose] idle_world 9 eq_refl Hne).
  - apply (Hexit demo_env demo_argv [wake_eintr] wake_ebadf [wake_expose] 9
             Hwait eq_refl Hne).
Defined.

(** ** Creating and docking the windows *)

Lemma create_window_run env i w :
  create_window env i w =
    (tt, mkWorld (<[i := set_win (next_xid w) (attrs w !!! i)]> (attrs w))
           (next_xid w + 1) (log w ++ window_calls env (next_xid w))).
Proof.
  unfold create_window, dock_to_tray, window_calls. run_prog.
  destruct (e_tray env =? 0); run_prog; rewrite <- !app_assoc; reflexivity.
Qed.

Lemma snoc_of_length {A} (l : list A) k :
  length l = S k -> exists l' x, l = l' ++ [x] /\ length l' = k.
Proof.
  destruct l as [|y l] using rev_ind; [discriminate|].
  rewrite length_app. simpl. intros Hlen. exists l, y. split; [reflexivity|lia].
Qed.

Lemma startup_body_run env i w :
  (i < length (attrs w))%nat ->
  startup_body env i w =
    (tt, let a' := set_win (next_xid w) (attrs w !!! i) in
         mkWorld (<[i := a']> (attrs w)) (next_xid w + 1)
           (log w ++ startup_calls env a')).
Proof.
  intros Hi. unfold startup_body, bind. rewrite create_window_run.
  unfold attr_at. cbn [attrs].
  rewrite list_lookup_total_insert_eq by exact Hi.
  rewrite draw_icon_run. unfold append_log, startup_calls. cbn.
  now rewrite <- app_assoc.
Qed.

(** The loop [for (i = k - 1; i >= 0; --i)] over the first [k] descriptors:
    they come out with the windows [x], [x + 1], ... given from the last
    descriptor to the first, and the calls are those of the descriptors in
    reverse order. *)
Lemma startup_down env k : forall l1 l2 w,
  length l1 = k -> attrs w = l1 ++ l2 ->
  exists l1',
    for_down k (startup_body env) w =
      (tt, mkWorld (l1' ++ l2) (next_xid w + Z.of_nat k)
             (log w ++ (reverse l1' ≫= startup_calls env))) /\
    set_win 0 <$> l1' = set_win 0 <$> l1 /\
    win <$> reverse l1' = seqZ (next_xid w) (Z.of_nat k).
Proof.
  induction k as [|k IH]; intros l1 l2 w Hlen Hattrs.
  - destruct l1; [|discriminate]. exists []. cbn [for_down]. unfold ret.
    split; [|split; reflexivity].
    destruct w as [l x cs]; simpl in *. subst l.
    now rewrite Z.add_0_r, app_nil_r.
  - destruct (snoc_of_length l1 k Hlen) as (l1a & a & -> & Hk).
    rewrite <- app_assoc in Hattrs. cbn [app] in Hattrs.
    cbn [for_down]. unfold bind.
    rewrite startup_body_run by (rewrite Hattrs, length_app; simpl; lia).
    cbn zeta.
    assert (Hat : attrs w !!! k = a)
      by (rewrite Hattrs; subst k; apply list_lookup_total_middle; reflexivity).
    assert (Hins : <[k := set_win (next_xid w) a]> (attrs w)
                   = l1a ++ set_win (next_xid w) a :: l2).
    { rewrite Hattrs. subst k. rewrite insert_app_r_alt by lia.
      now rewrite Nat.sub_diag. }
    rewrite Hat, Hins.
    set (a' := set_win (next_xid w) a).
    set (w2 := mkWorld _ _ _).
    destruct (IH l1a (a' :: l2) w2 Hk eq_refl) as (l1a' & Hrun & Hsame & Hwins).
    exists (l1a' ++ [a']). rewrite Hrun. split; [|split].
    + f_equal. subst w2. cbn [attrs next_xid log]. f_equal.
      * now rewrite <- app_assoc.
      * lia.
      * rewrite reverse_snoc, bind_cons. now rewrite <- !app_assoc.
    + rewrite !fmap_app, Hsame. reflexivity.
    + rewrite reverse_snoc, fmap_cons, Hwins. subst w2 a'.
      cbn [win set_win next_xid].
      rewrite (seqZ_cons (next_xid w) (Z.of_nat (S k))) by lia.
      f_equal. f_equal; lia.
Qed.

Lemma startup_windows_run env w :
  exists l',
    startup_windows env w =
      (tt, mkWorld l' (next_xid w + Z.of_nat (length (attrs w)))
             (log w ++ (reverse l' ≫= startup_calls env))) /\
    set_win 0 <$> l' = set_win 0 <$> attrs w /\
    win <$> reverse l' = seqZ (next_xid w) (Z.of_nat (length (attrs w))).
Proof.
  unfold startup_windows, bind, n_attr.
  destruct (startup_down env (length (attrs w)) (attrs w) [] w eq_refl)
    as (l' & Hrun & Hsame & Hwins); [now rewrite app_nil_r|].
  exists l'. rewrite Hrun, app_nil_r. now split.
Qed.

(** ** [main] up to the loop *)

Lemma for_up_step k i body w w1 :
  body i w = (false, w1) -> for_up (S k) i body w = for_up k (S i) body w1.
Proof. intros H. cbn [for_up]. unfold bind. now rewrite H. Qed.

Lemma parse_body_run env argv i w :
  parse_body env argv i w =
    (false,
     let a := initial_attr env (default EmptyString (argv !! S i)) in
     mkWorld (<[i := a]> (attrs w)) (next_xid w)
       (log w ++ read_calls (path a) (e_fs env (path a)))).
Proof.
  unfold parse_body, initial_attr, bind, put_attr, ret. cbn [attrs next_xid log].
  rewrite read_bool_run. cbn [attrs next_xid log append_log path set_state].
  now rewrite list_insert_insert_eq.
Qed.

(** The parsing loop fills [attrs], in order, with the descriptors of the
    arguments that follow the program name. *)
Lemma parse_loop env argv k : forall i done todo w,
  length done = i -> length todo = k -> attrs w = done ++ todo ->
  (S (i + k) <= length argv)%nat ->
  for_up k i (parse_body env argv) w =
    (tt, let l := initial_attr env <$> take k (drop (S i) argv) in
         mkWorld (done ++ l) (next_xid w)
           (log w ++ (l ≫= λ a, read_calls (path a) (e_fs env (path a))))).
Proof.
  induction k as [|k IH]; intros i done todo w Hi Hk Hattrs Hargv.
  - destruct todo; [|discriminate]. cbn. unfold ret.
    destruct w as [l x cs]; simpl in *. subst l. now rewrite !app_nil_r.
  - destruct todo as [|z todo]; [discriminate|]. injection Hk as Hk.
    destruct (lookup_lt_is_Some_2 argv (S i) ltac:(lia)) as [arg Harg].
    rewrite (for_up_step _ _ _ _ _ (parse_body_run env argv i w)).
    rewrite Harg. cbn [default from_option id]. cbn zeta.
    assert (Hins : <[i := initial_attr env arg]> (attrs w)
                   = (done ++ [initial_attr env arg]) ++ todo).
    { rewrite Hattrs. subst i. rewrite insert_app_r_alt by lia.
      rewrite Nat.sub_diag. cbn. now rewrite <- app_assoc. }
    rewrite Hins.
    match goal with
    | |- for_up k (S i) _ ?w1 = _ =>
        rewrite (IH (S i) (done ++ [initial_attr env arg]) todo w1
                   ltac:(rewrite length_app; simpl; lia) Hk eq_refl ltac:(lia))
    end.
    cbn zeta. cbn [attrs next_xid log].
    rewrite (drop_S argv arg (S i) Harg). cbn [take fmap list_fmap].
    rewrite bind_cons. f_equal. f_equal; now rewrite <- !app_assoc.
Qed.

Lemma watch_body_run env i w :
  (i < length (attrs w))%nat ->
  watch_body env i w =
    (false,
     let a := attrs w !!! i in
     mkWorld (<[i := watched env a]> (attrs w)) (next_xid w)
       (log w ++ watch_calls env a)).
Proof.
  intros Hi. unfold watch_body, watched, watch_calls, bind, attr_at, put_attr, when.
  cbn zeta. rewrite emit_run. cbn [attrs next_xid log append_log].
  destruct (e_add_watch env (path (attrs w !!! i)) <? 0).
  - rewrite emit_run. unfold ret, append_log. cbn. now rewrite <- app_assoc.
  - reflexivity.
Qed.

(** The registration loop gives every descriptor, in order, the result of
    [inotify_add_watch] on its path, with a warning for each negative one,
    and goes on to the next descriptor in either case. *)
Lemma watch_loop env k : forall i done todo w,
  length done = i -> length todo = k -> attrs w = done ++ todo ->
  for_up k i (watch_body env) w =
    (tt, mkWorld (done ++ (watched env <$> todo)) (next_xid w)
           (log w ++ (todo ≫= watch_calls env))).
Proof.
  induction k as [|k IH]; intros i done todo w Hi Hk Hattrs.
  - destruct todo; [|discriminate]. cbn. unfold ret.
    destruct w as [l x cs]; simpl in *. subst l. now rewrite !app_nil_r.
  - destruct todo as [|a todo]; [discriminate|]. injection Hk as Hk.
    assert (Hat : attrs w !!! i = a)
      by (rewrite Hattrs; subst i; apply list_lookup_total_middle; reflexivity).
    rewrite (for_up_step _ _ _ _ _
               (watch_body_run env i w ltac:(rewrite Hattrs, length_app; simpl; lia))).
    cbn zeta. rewrite Hat.
    assert (Hins : <[i := watched env a]> (attrs w)
                   = (done ++ [watched env a]) ++ todo).
    { rewrite Hattrs. subst i. rewrite insert_app_r_alt by lia.
      rewrite Nat.sub_diag. cbn. now rewrite <- app_assoc. }
    rewrite Hins.
    match goal with
    | |- for_up k (S i) _ ?w1 = _ =>
        rewrite (IH (S i) (done ++ [watched env a]) todo w1
                   ltac:(rewrite length_app; simpl; lia) Hk eq_refl)
    end.
    cbn [attrs next_xid log]. rewrite fmap_cons, bind_cons.
    f_equal. f_equal; now rewrite <- !app_assoc.
Qed.

Lemma tail_take_drop {A} (l : list A) : take (length l - 1) (drop 1 l) = tail l.
Proof.
  destruct l as [|x l]; [reflexivity|]. cbn [drop tail length].
  rewrite Nat.sub_succ, Nat.sub_0_r. apply firstn_all.
Qed.

(** A successful start: the world in which the loop is entered. *)
Lemma main_started env argv :
  (2 <= length argv)%nat -> e_display env = true -> 0 <= e_ino_fd env ->
  exists l',
    set_win 0 <$> l' = set_win 0 <$> (initial_attr env <$> tail argv) /\
    win <$> reverse l' = seqZ (e_xid env) (Z.of_nat (length argv - 1)) /\
    forall wakes,
      run env argv wakes =
        let w1 := mkWorld (watched env <$> l')
                    (e_xid env + Z.of_nat (length argv - 1))
                    (startup_log env (initial_attr env <$> tail argv) l') in
        (match (event_loop wakes w1).1 with
         | loop_break => Some 0
         | loop_blocked => None
         end, (event_loop wakes w1).2).
Proof.
  intros Hargc Hdpy Hino.
  set (n := (length argv - 1)%nat).
  set (l0 := initial_attr env <$> tail argv).
  assert (Hl0 : length l0 = n)
    by (subst l0 n; rewrite length_fmap; destruct argv; simpl in *; lia).
  pose (w6 := mkWorld l0 (e_xid env)
                ((l0 ≫= λ a, read_calls (path a) (e_fs env (path a)))
                 ++ [c_XOpenDisplay true; c_XInternAtom "_XEMBED_INFO";
                     c_XInternAtom "_NET_SYSTEM_TRAY_OPCODE"])).
  destruct (startup_windows_run env w6) as (l' & Hwin & Hsame & Hwins).
  cbn [attrs next_xid log w6] in Hwin, Hsame, Hwins. rewrite Hl0 in Hwin, Hwins.
  assert (Hl' : length l' = n).
  { rewrite <- Hl0, <- (length_fmap (set_win 0) l'), Hsame. apply length_fmap. }
  exists l'. split; [exact Hsame|]. split; [exact Hwins|]. intros wakes.
  unfold run, main, boot.
  destruct (Z.ltb_spec (Z.of_nat (length argv)) 2) as [?|_]; [lia|].
  unfold bind at 1. unfold alloc_attrs. cbn [next_xid log].
  replace (Z.to_nat (Z.of_nat (length argv) - 1)) with n by (subst n; lia).
  unfold bind at 1. unfold n_attr at 1. cbn [attrs]. rewrite length_replicate.
  unfold bind at 1.
  rewrite (parse_loop env argv n 0%nat [] (replicate n zero_attr))
    by (try reflexivity; try apply length_replicate; subst n; lia).
  cbn zeta. cbn [attrs next_xid log app].
  replace (take n (drop 1 argv)) with (tail argv)
    by (subst n; symmetry; apply tail_take_drop).
  fold l0.
  unfold bind at 1. rewrite emit_run. rewrite Hdpy. cbn [negb].
  unfold bind at 1. rewrite emit_run.
  unfold bind at 1. rewrite emit_run.
  rewrite !append_log_app. unfold append_log at 1. cbn [attrs next_xid log app].
  fold w6. unfold bind at 1. rewrite Hwin.
  unfold bind at 1. rewrite emit_run.
  destruct (Z.ltb_spec (e_ino_fd env) 0) as [?|_]; [lia|].
  unfold bind at 1. unfold n_attr at 1. cbn [attrs next_xid log append_log].
  unfold bind at 1.
  rewrite (watch_loop env (length l') 0%nat [] l') by reflexivity.
  cbn [attrs next_xid log app].
  unfold bind, ret. cbn zeta.
  cbn [next_xid log append_log].
  match goal with
  | |- context [event_loop wakes (mkWorld _ _ ?cs)] =>
      replace cs with (startup_log env l0 l')
        by (unfold startup_log; now rewrite <- !app_assoc)
  end.
  destruct (event_loop wakes _) as [[|] w']; reflexivity.
Qed.

(** ** What the log says about windows *)

Section Projections.
Context (f : Call -> option Z).

Lemma omap_bind_wins (calls : Attr -> list Call) (l : list Attr) :
  (forall a, omap f (calls a) = [win a]) -> omap f (l ≫= calls) = win <$> l.
Proof.
  intros H. induction l as [|a l IH]; [reflexivity|].
  rewrite bind_cons, omap_app, H, IH. reflexivity.
Qed.

Lemma omap_bind_none (calls : Attr -> list Call) (l : list Attr) :
  (forall a, omap f (calls a) = []) -> omap f (l ≫= calls) = [].
Proof.
  intros H. induction l as [|a l IH]; [reflexivity|].
  rewrite bind_cons, omap_app, H, IH. reflexivity.
Qed.
End Projections.

Lemma tray_fold t cs : forall row,
  foldl (tray_add t) row cs = reverse (omap (dock_request t) cs) ++ row.
Proof.
  induction cs as [|c cs IH]; intros row; [reflexivity|].
  cbn [foldl omap list_omap]. rewrite IH. unfold tray_add.
  destruct (dock_request t c) as [x|]; [|reflexivity].
  rewrite reverse_cons, <- app_assoc. reflexivity.
Qed.

Lemma tray_row_requests t cs : tray_row t cs = reverse (omap (dock_request t) cs).
Proof. unfold tray_row. rewrite tray_fold. apply app_nil_r. Qed.

Lemma icon_calls_painted a : omap painted_window (icon_calls a) = [win a].
Proof. unfold icon_calls. destruct (truthy (state a)); reflexivity. Qed.

Lemma icon_calls_other (f : Call -> option Z) a :
  f (c_XCreateGC (win a)) = None ->
  (forall c, f (c_XSetForeground c) = None) ->
  f (c_XFillRectangle (win a) 0 0 ICON_SZ ICON_SZ) = None ->
  (forall x y s n, f (c_XDrawString (win a) x y s n) = None) ->
  f c_XFreeGC = None -> f c_XSync = None ->
  omap f (icon_calls a) = [].
Proof.
  intros H1 H2 H3 H4 H5 H6. unfold icon_calls.
  destruct (truthy (state a)); cbn [app omap list_omap];
    now rewrite ?H1, ?H2, ?H3, ?H4, ?H5, ?H6.
Qed.

Lemma startup_calls_created env a :
  omap created_window (startup_calls env a) = [win a].
Proof.
  unfold startup_calls, window_calls. rewrite !omap_app.
  rewrite icon_calls_other by reflexivity.
  destruct (e_tray env =? 0); reflexivity.
Qed.

Lemma startup_calls_mapped env a :
  omap mapped_window (startup_calls env a) = [win a].
Proof.
  unfold startup_calls, window_calls. rewrite !omap_app.
  rewrite icon_calls_other by reflexivity.
  destruct (e_tray env =? 0); reflexivity.
Qed.

Lemma startup_calls_painted env a :
  omap painted_window (startup_calls env a) = [win a].
Proof.
  unfold startup_calls, window_calls. rewrite !omap_app, icon_calls_painted.
  destruct (e_tray env =? 0); reflexivity.
Qed.

Lemma startup_calls_docked env a :
  omap (dock_request (e_tray env)) (startup_calls env a)
  = if e_tray env =? 0 then [] else [win a].
Proof.
  unfold startup_calls, window_calls. rewrite !omap_app.
  rewrite icon_calls_other by reflexivity.
  destruct (e_tray env =? 0) eqn:Htray; [reflexivity|].
  cbn [omap list_omap app dock_request]. now rewrite !Z.eqb_refl.
Qed.

Lemma read_calls_silent (f : Call -> option Z) p s :
  (forall q r, f (c_open q r) = None) ->
  (forall fd n r, f (c_read fd n r) = None) ->
  (forall fd, f (c_close fd) = None) ->
  omap f (read_calls p s) = [].
Proof.
  intros H1 H2 H3. destruct s; cbn [read_calls omap list_omap];
    now rewrite ?H1, ?H2, ?H3.
Qed.

Lemma watch_calls_silent (f : Call -> option Z) env a :
  (forall q r, f (c_inotify_add_watch q r) = None) ->
  (forall s, f (c_fprintf_stderr s) = None) ->
  omap f (watch_calls env a) = [].
Proof.
  intros H1 H2. unfold watch_calls.
  destruct (_ <? 0); cbn [omap list_omap]; now rewrite ?H1, ?H2.
Qed.

(** Of the calls up to the loop, only those of the loop that creates the
    windows create, map, paint or dock anything. *)
Lemma startup_log_windows (f : Call -> option Z) env l0 l' :
  (forall q r, f (c_open q r) = None) ->
  (forall fd n r, f (c_read fd n r) = None) ->
  (forall fd, f (c_close fd) = None) ->
  (forall q r, f (c_inotify_add_watch q r) = None) ->
  (forall s, f (c_fprintf_stderr s) = None) ->
  (forall b, f (c_XOpenDisplay b) = None) ->
  (forall s, f (c_XInternAtom s) = None) ->
  (forall r, f (c_inotify_init1 r) = None) ->
  omap f (startup_log env l0 l') = omap f (reverse l' ≫= startup_calls env).
Proof.
  intros H1 H2 H3 H4 H5 H6 H7 H8. unfold startup_log. rewrite !omap_app.
  rewrite (omap_bind_none f _ l0) by (intros a; now apply read_calls_silent).
  rewrite (omap_bind_none f _ l') by (intros a; now apply watch_calls_silent).
  cbn [omap list_omap]. rewrite H6, !H7, H8. cbn [app]. apply app_nil_r.
Qed.

Lemma fmap_via_set_win {B} (g : Attr -> B) (l l' : list Attr) :
  (forall a, g (set_win 0 a) = g a) ->
  set_win 0 <$> l' = set_win 0 <$> l -> g <$> l' = g <$> l.
Proof.
  intros Hg Hsame.
  assert (H : forall k : list Attr, g <$> k = g <$> (set_win 0 <$> k)).
  { intros k. rewrite <- list_fmap_compose. apply list_fmap_ext.
    intros i a _. symmetry. apply Hg. }
  rewrite (H l'), (H l). now rewrite Hsame.
Qed.

(** C4.  The loop that creates the windows goes through [attrs] from the
    last descriptor to the first: each turn creates, maps, docks and paints
    the window of one descriptor, and the calls of the whole loop are those
    turns for the descriptors in reverse order.  On a run that reaches the
    event loop, descriptor [i] is the one of argument [i + 1], the windows
    are pairwise distinct, and they are created, mapped, painted and docked
    in the reverse of the order of the arguments; a tray that puts each new
    window at the leading end of its row then shows them in the order of the
    arguments. *)
Theorem windows_docked_in_reverse :
  (forall env w,
     exists l',
       startup_windows env w =
         (tt, mkWorld l' (next_xid w + Z.of_nat (length (attrs w)))
                (log w ++ (reverse l' ≫= startup_calls env))) /\
       set_win 0 <$> l' = set_win 0 <$> attrs w /\
       win <$> reverse l' = seqZ (next_xid w) (Z.of_nat (length (attrs w)))) /\
  (forall env argv,
     (2 <= length argv)%nat -> e_display env = true -> 0 <= e_ino_fd env ->
     let w := (run env argv []).2 in
     path <$> attrs w = (λ arg, path (parse_arg arg)) <$> tail argv /\
     NoDup (win <$> attrs w) /\
     omap created_window (log w) = reverse (win <$> attrs w) /\
     omap mapped_window (log w) = reverse (win <$> attrs w) /\
     omap painted_window (log w) = reverse (win <$> attrs w) /\
     omap (dock_request (e_tray env)) (log w)
       = (if e_tray env =? 0 then [] else reverse (win <$> attrs w)) /\
     tray_row (e_tray env) (log w)
       = (if e_tray env =? 0 then [] else win <$> attrs w)).
Proof.
  split; [intros env w; apply startup_windows_run|].
  intros env argv Hargc Hdpy Hino.
  destruct (main_started env argv Hargc Hdpy Hino) as (l' & Hsame & Hwins & Hrun).
  rewrite (Hrun []). cbn zeta. cbn [event_loop ret fst snd attrs log].
  assert (Hwin : win <$> (watched env <$> l') = win <$> l')
    by (rewrite <- list_fmap_compose; reflexivity).
  assert (Hrev : reverse (win <$> l') = win <$> reverse l')
    by (symmetry; apply fmap_reverse).
  rewrite Hwin, Hrev.
  split; [|split; [|split; [|split; [|split; [|split]]]]].
  - rewrite <- !list_fmap_compose.
    change (path ∘ watched env) with path.
    rewrite (fmap_via_set_win path _ l' (λ _, eq_refl) Hsame).
    rewrite <- list_fmap_compose. reflexivity.
  - rewrite <- (reverse_Permutation (win <$> l')), Hrev, Hwins.
    apply NoDup_seqZ.
  - rewrite startup_log_windows by reflexivity.
    apply omap_bind_wins, startup_calls_created.
  - rewrite startup_log_windows by reflexivity.
    apply omap_bind_wins, startup_calls_mapped.
  - rewrite startup_log_windows by reflexivity.
    apply omap_bind_wins, startup_calls_painted.
  - rewrite startup_log_windows by reflexivity.
    destruct (e_tray env =? 0) eqn:Htray.
    + apply omap_bind_none. intros a. rewrite startup_calls_docked. now rewrite Htray.
    + apply omap_bind_wins. intros a. rewrite startup_calls_docked. now rewrite Htray.
  - rewrite tray_row_requests, startup_log_windows by reflexivity.
    destruct (e_tray env =? 0) eqn:Htray.
    + rewrite omap_bind_none; [reflexivity|].
      intros a. rewrite startup_calls_docked. now rewrite Htray.
    + rewrite (omap_bind_wins _ (startup_calls env)), fmap_reverse.
      * apply reverse_involutive.
      * intros a. rewrite startup_calls_docked. now rewrite Htray.
Qed.

Lemma windows_docked_in_reverse_witness :
  ((2 <= length demo_argv)%nat /\ e_display demo_env = true /\
   0 <= e_ino_fd demo_env) /\
  let w := (run demo_env demo_argv []).2 in
  path <$> attrs w = (λ arg, path (parse_arg arg)) <$> tail demo_argv /\
  NoDup (win <$> attrs w) /\
  omap created_window (log w) = reverse (win <$> attrs w) /\
  omap mapped_window (log w) = reverse (win <$> attrs w) /\
  omap painted_window (log w) = reverse (win <$> attrs w) /\
  omap (dock_request (e_tray demo_env)) (log w)
    = (if e_tray demo_env =? 0 then [] else reverse (win <$> attrs w)) /\
  tray_row (e_tray demo_env) (log w)
    = (if e_tray demo_env =? 0 then [] else win <$> attrs w).
Proof.
  assert (Hargc : (2 <= length demo_argv)%nat) by (unfold demo_argv; simpl; lia).
  assert (Hino : 0 <= e_ino_fd demo_env) by (unfold demo_env; simpl; lia).
  split; [split; [exact Hargc | split; [reflexivity | exact Hino]]|].
  exact (proj2 windows_docked_in_reverse demo_env demo_argv Hargc eq_refl Hino).
Defined.

(** The same run, in figures: two arguments, windows 100 and 101 given to
    the second and to the first, docked in that order, shown by the tray as
    101, 100: the order of the arguments. *)
Example two_icons_in_argument_order :
  let w := (run demo_env demo_argv []).2 in
  path <$> attrs w = ["/sys/a"; "/sys/b"] /\
  win <$> attrs w = [101; 100] /\
  omap created_window (log w) = [100; 101] /\
  omap (dock_request 77) (log w) = [100; 101] /\
  tray_row 77 (log w) = [101; 100].
Proof. vm_compute. repeat split. Qed.

(** ** Descriptors whose registration failed *)

(** A failed registration: the warning is printed, the descriptor keeps the
    negative result as its watch descriptor and its state as it was, and
    the loop goes on with the next descriptor. *)
Lemma registration_failure env i w :
  (i < length (attrs w))%nat ->
  e_add_watch env (path (attrs w !!! i)) < 0 ->
  let a := attrs w !!! i in
  watch_body env i w =
    (false,
     mkWorld (<[i := set_wd (e_add_watch env (path a)) a]> (attrs w)) (next_xid w)
       (log w ++ [c_inotify_add_watch (path a) (e_add_watch env (path a));
                  c_fprintf_stderr
                    ("warning: cannot watch " +:+ path a +:+ " ("
                       +:+ e_strerror env +:+ ")" +:+ newline)])).
Proof.
  intros Hi Hneg. cbn zeta. rewrite watch_body_run by exact Hi. cbn zeta.
  unfold watch_calls, watched.
  destruct (Z.ltb_spec (e_add_watch env (path (attrs w !!! i))) 0);
    [reflexivity|lia].
Qed.

(** Records that carry a watch descriptor the kernel has given out (these
    are not negative) never touch a descriptor whose registration failed. *)
Lemma unwatched_untouched recs : forall w (i : nat) a,
  attrs w !! i = Some a -> wd a < 0 ->
  Forall (λ r : InotifyEvent * FS, 0 <= ie_wd (r.1)) recs ->
  attrs (on_records recs w).2 !! i = Some a.
Proof.
  induction recs as [|r recs IH]; intros w i a Hi Hwd Hrecs.
  - exact Hi.
  - apply Forall_cons in Hrecs as [Hr Hrecs].
    cbn [on_records]. unfold bind. rewrite on_record_run.
    apply IH; [|exact Hwd|exact Hrecs].
    unfold record_step.
    destruct (wd_owner _ _) as [[j b]|] eqn:Hown; [|exact Hi].
    apply wd_owner_lookup in Hown as [Hj Hwdb]. cbn zeta.
    destruct (_ && _); [|exact Hi].
    cbn [attrs append_log with_attrs].
    rewrite list_lookup_insert_ne; [exact Hi|].
    intros ->. assert (b = a) by congruence. subst b. lia.
Qed.

(** C9, where the code departs from the claim.  Of two attributes the
    first cannot be registered, so its watch descriptor is -1, and the
    second is watched.  The record the kernel delivers when the queue of the
    instance has overflowed carries the watch descriptor -1 as well: it is
    dispatched to the first attribute, whose source is read again; its
    state goes from 0 to 1 and its icon is redrawn. *)
Theorem overflow_record_rereads_unwatched :
  let before := (run unwatched_env unwatched_argv []).2 in
  let after := (run unwatched_env unwatched_argv [wake_overflow]).2 in
  wd <$> attrs before = [-1; 1] /\
  state <$> attrs before = [0; 0] /\
  win <$> attrs before = [101; 100] /\
  state <$> attrs after = [1; 0] /\
  log after =
    log before ++
    [c_select 1; c_read_inotify 16;
     c_open "/sys/a" 3; c_read 3 7 2; c_close 3;
     c_XCreateGC 101; c_XSetForeground 7798784; c_XFillRectangle 101 0 0 24 24;
     c_XSetForeground 16777215; c_XDrawString 101 3 16 "CTL" 3;
     c_XFreeGC; c_XSync].
Proof. vm_compute. repeat split. Qed.

(** * Further properties of the code *)

(** ** Splitting an argument into its fields *)

Lemma split_colon_free s : colon_free s = true -> Libc.split_colon s = (s, None).
Proof.
  induction s as [|c r IH]; [reflexivity|]. cbn [colon_free Libc.split_colon].
  intros [Hc Hr]%andb_prop. apply negb_true_iff in Hc. rewrite Hc.
  now rewrite (IH Hr).
Qed.

Lemma split_colon_app s r :
  colon_free s = true -> Libc.split_colon (s +:+ ":" +:+ r) = (s, Some r).
Proof.
  induction s as [|c s IH]; [reflexivity|].
  cbn [colon_free]. intros [Hc Hs]%andb_prop. apply negb_true_iff in Hc.
  change (String c s +:+ ":" +:+ r) with (String c (s +:+ ":" +:+ r)).
  cbn [Libc.split_colon]. rewrite Hc. now rewrite (IH Hs).
Qed.

Lemma split_colon_token s : colon_free (Libc.split_colon s).1 = true.
Proof.
  induction s as [|c r IH]; [reflexivity|]. cbn [Libc.split_colon].
  destruct (Libc.code c =? 58) eqn:Hc; [reflexivity|].
  destruct (Libc.split_colon r) as [tok rest]. cbn [fst colon_free] in *.
  now rewrite Hc, IH.
Qed.

Lemma colon_free_strncpy n : forall s,
  colon_free s = true -> colon_free (Libc.strncpy n s) = true.
Proof.
  induction n as [|n IH]; intros [|c r]; try reflexivity.
  cbn [colon_free]. intros [Hc Hr]%andb_prop.
  change (Libc.strncpy (S n) (String c r)) with (String c (Libc.strncpy n r)).
  cbn [colon_free]. now rewrite Hc, (IH r Hr).
Qed.

Lemma strncpy_short n : forall s,
  (String.length s <= n)%nat -> Libc.strncpy n s = s.
Proof.
  induction n as [|n IH]; intros [|c r] Hlen; try reflexivity.
  - simpl in Hlen. lia.
  - change (Libc.strncpy (S n) (String c r)) with (String c (Libc.strncpy n r)).
    rewrite IH; [reflexivity|]. simpl in Hlen. lia.
Qed.

Lemma strsep_field s r :
  colon_free s = true ->
  Libc.strsep (Some (s +:+ ":" +:+ r)) = (Some s, Some r).
Proof. intros H. unfold Libc.strsep. now rewrite split_colon_app. Qed.

Lemma strsep_last s :
  colon_free s = true -> Libc.strsep (Some s) = (Some s, None).
Proof. intros H. unfold Libc.strsep. now rewrite split_colon_free. Qed.

Lemma strsep_last_or_more s junk :
  colon_free s = true ->
  (Libc.strsep (Some (s +:+ field_tail junk))).1 = Some s.
Proof.
  intros H. destruct junk as [j|]; cbn [field_tail].
  - now rewrite strsep_field.
  - assert (Hs : s +:+ EmptyString = s)
      by (clear; induction s as [|c s IH]; [reflexivity|];
          change (String c s +:+ "") with (String c (s +:+ "")); now rewrite IH).
    rewrite Hs. now rewrite strsep_last.
Qed.

(** ** Parsing an argument *)

(** X1.  An argument [PATH:LABEL:FG:BG1:BG0], whose fields hold no colon,
    gives the descriptor with the path cut to 255 characters, the label cut
    to 7, and the three colours as [strtoul] reads them; whatever follows a
    sixth colon is ignored.  State, watch descriptor and window are still
    zero. *)
Theorem parse_arg_fields (p l f b1 b0 : string) (junk : option string) :
  colon_free p = true -> colon_free l = true -> colon_free f = true ->
  colon_free b1 = true -> colon_free b0 = true ->
  parse_arg (p +:+ ":" +:+ l +:+ ":" +:+ f +:+ ":" +:+ b1 +:+ ":" +:+ b0
               +:+ field_tail junk)
  = mkAttr (Libc.strncpy 255 p) (Libc.strncpy 7 l)
      (Libc.strtoul0 f) (Libc.strtoul0 b1) (Libc.strtoul0 b0) 0 0 0.
Proof.
  intros Hp Hl Hf Hb1 Hb0. unfold parse_arg.
  rewrite (strsep_field p _ Hp), (strsep_field l _ Hl), (strsep_field f _ Hf),
    (strsep_field b1 _ Hb1).
  pose proof (strsep_last_or_more b0 junk Hb0) as Hlast.
  destruct (Libc.strsep (Some (b0 +:+ field_tail junk))) as [tok rest].
  cbn [fst] in Hlast. subst tok. reflexivity.
Qed.

Lemma parse_arg_fields_witness :
  (colon_free "/sys/class/leds/ctrl" = true /\ colon_free "CTRLKEYS" = true /\
   colon_free "0xFFFFFF" = true /\ colon_free "0x770000" = true /\
   colon_free "0x303030" = true) /\
  parse_arg "/sys/class/leds/ctrl:CTRLKEYS:0xFFFFFF:0x770000:0x303030:extra:text"
  = mkAttr "/sys/class/leds/ctrl" "CTRLKEY" 16777215 7798784 3158064 0 0 0.
Proof.
  split; [repeat split|].
  etransitivity;
    [exact (parse_arg_fields "/sys/class/leds/ctrl" "CTRLKEYS" "0xFFFFFF"
              "0x770000" "0x303030" (Some "extra:text")
              eq_refl eq_refl eq_refl eq_refl eq_refl)
    | vm_compute; reflexivity].
Defined.

(** X2.  Fields that are missing take the defaults [0x000000], [0xFFFFFF]
    and [0x303030] (and the empty label); a field that is present but empty
    does not: an empty colour is 0. *)
Theorem parse_arg_defaults (p l f : string) :
  colon_free p = true -> colon_free l = true -> colon_free f = true ->
  parse_arg p = mkAttr (Libc.strncpy 255 p) EmptyString 0 16777215 3158064 0 0 0 /\
  parse_arg (p +:+ ":" +:+ l)
    = mkAttr (Libc.strncpy 255 p) (Libc.strncpy 7 l) 0 16777215 3158064 0 0 0 /\
  parse_arg (p +:+ ":" +:+ l +:+ ":" +:+ f)
    = mkAttr (Libc.strncpy 255 p) (Libc.strncpy 7 l) (Libc.strtoul0 f)
        16777215 3158064 0 0 0 /\
  parse_arg (p +:+ ":" +:+ l +:+ ":" +:+ ":" +:+ ":")
    = mkAttr (Libc.strncpy 255 p) (Libc.strncpy 7 l) 0 0 0 0 0 0.
Proof.
  intros Hp Hl Hf. unfold parse_arg. split; [|split; [|split]].
  - rewrite (strsep_last p Hp). reflexivity.
  - rewrite (strsep_field p _ Hp), (strsep_last l Hl). reflexivity.
  - rewrite (strsep_field p _ Hp), (strsep_field l _ Hl), (strsep_last f Hf).
    reflexivity.
  - rewrite (strsep_field p _ Hp), (strsep_field l _ Hl). reflexivity.
Qed.

Lemma parse_arg_defaults_witness :
  (colon_free "/sys/a" = true /\ colon_free "ALT" = true /\
   colon_free "0x00FF00" = true) /\
  parse_arg "/sys/a" = mkAttr "/sys/a" "" 0 16777215 3158064 0 0 0 /\
  parse_arg "/sys/a:ALT" = mkAttr "/sys/a" "ALT" 0 16777215 3158064 0 0 0 /\
  parse_arg "/sys/a:ALT:0x00FF00"
    = mkAttr "/sys/a" "ALT" 65280 16777215 3158064 0 0 0 /\
  parse_arg "/sys/a:ALT:::" = mkAttr "/sys/a" "ALT" 0 0 0 0 0 0.
Proof.
  split; [repeat split|].
  destruct (parse_arg_defaults "/sys/a" "ALT" "0x00FF00" eq_refl eq_refl eq_refl)
    as (H1 & H2 & H3 & H4).
  split; [|split; [|split]].
  - etransitivity; [exact H1 | vm_compute; reflexivity].
  - etransitivity; [exact H2 | vm_compute; reflexivity].
  - etransitivity; [exact H3 | vm_compute; reflexivity].
  - etransitivity; [exact H4 | vm_compute; reflexivity].
Defined.

(** ** Colours *)

Lemma digit_val_nonneg c d : Libc.digit_val c = Some d -> 0 <= d.
Proof.
  unfold Libc.digit_val. pose proof (code_range c).
  repeat match goal with
         | |- context [if ?b then _ else _] => destruct b eqn:?
         end; intros [= <-]; lia.
Qed.

Lemma digits_base_nonneg base s : forall acc,
  0 <= base -> 0 <= acc -> 0 <= Libc.digits_base base acc s.
Proof.
  induction s as [|c r IH]; intros acc Hb Hacc; cbn [Libc.digits_base]; [exact Hacc|].
  destruct (Libc.digit_val c) as [d|] eqn:Hd; [|exact Hacc].
  destruct (d <? base); [|exact Hacc].
  apply IH; [exact Hb|]. pose proof (digit_val_nonneg c d Hd). nia.
Qed.

Lemma strtoul0_shape s :
  exists (neg : bool) v, 0 <= v /\
    Libc.strtoul0 s =
      if Libc.ULONG_MAX <? v then Libc.ULONG_MAX
      else if neg then (- v) mod (Libc.ULONG_MAX + 1) else v.
Proof.
  unfold Libc.strtoul0.
  destruct (match Libc.skip_space s with
            | EmptyString => _
            | String c r => _
            end) as [neg s2].
  exists neg. eexists. split; [|reflexivity].
  destruct s2 as [|c0 [|cx r]]; try (apply digits_base_nonneg; lia).
  destruct (Libc.code c0 =? 48); [|apply digits_base_nonneg; lia].
  destruct (_ || _); apply digits_base_nonneg; lia.
Qed.

Lemma strtoul0_range s : 0 <= Libc.strtoul0 s <= Libc.ULONG_MAX.
Proof.
  destruct (strtoul0_shape s) as (neg & v & Hv & ->).
  assert (HM : Libc.ULONG_MAX = 18446744073709551615) by reflexivity.
  destruct (Z.ltb_spec Libc.ULONG_MAX v); [lia|].
  destruct neg; [|lia].
  pose proof (Z.mod_pos_bound (- v) (Libc.ULONG_MAX + 1) ltac:(lia)). lia.
Qed.

Lemma strsep_token o t r : Libc.strsep o = (Some t, r) -> colon_free t = true.
Proof.
  destruct o as [s|]; [|discriminate]. unfold Libc.strsep.
  pose proof (split_colon_token s) as H.
  destruct (Libc.split_colon s) as [tok rest]. intros [= <- _]. exact H.
Qed.

(** X3.  Whatever the argument, the descriptor parsed from it fits the
    record: the path has at most 255 characters and the label at most 7,
    neither holds a colon (a path is cut at its first colon), every colour
    is an [unsigned long], and state, watch descriptor and window are 0. *)
Theorem parse_arg_bounds (arg : string) :
  let a := parse_arg arg in
  (String.length (path a) <= 255)%nat /\ (String.length (label a) <= 7)%nat /\
  colon_free (path a) = true /\ colon_free (label a) = true /\
  0 <= fg a <= Libc.ULONG_MAX /\
  0 <= bg_active a <= Libc.ULONG_MAX /\
  0 <= bg_inactive a <= Libc.ULONG_MAX /\
  state a = 0 /\ wd a = 0 /\ win a = 0.
Proof.
  unfold parse_arg.
  destruct (Libc.strsep (Some arg)) as [t1 r1] eqn:H1.
  destruct (Libc.strsep r1) as [t2 r2] eqn:H2.
  destruct (Libc.strsep r2) as [t3 r3].
  destruct (Libc.strsep r3) as [t4 r4].
  destruct (Libc.strsep r4) as [t5 r5].
  cbn zeta. cbn [path label fg bg_active bg_inactive state wd win].
  assert (Hf1 : colon_free (default EmptyString t1) = true)
    by (destruct t1; [eapply strsep_token; eassumption | reflexivity]).
  assert (Hf2 : colon_free (default EmptyString t2) = true)
    by (destruct t2; [eapply strsep_token; eassumption | reflexivity]).
  repeat split; try apply strncpy_length; try (now apply colon_free_strncpy);
    unfold parse_color; apply strtoul0_range.
Qed.

(** X4.  Text that does not begin with white space, a sign or a decimal
    digit is no number for [strtoul]: as a colour it is 0, and neither an
    error nor the default. *)
Theorem strtoul0_no_number (c : ascii) (r : string) :
  Libc.isspace c = false -> Libc.isdigit c = false ->
  Libc.code c <> 45 -> Libc.code c <> 43 ->
  Libc.strtoul0 (String c r) = 0 /\
  forall def, parse_color (Some (String c r)) def = 0.
Proof.
  intros Hsp Hdig Hminus Hplus.
  assert (H0 : Libc.strtoul0 (String c r) = 0).
  { unfold Libc.strtoul0. cbn [Libc.skip_space]. rewrite Hsp.
    destruct (Z.eqb_spec (Libc.code c) 45); [contradiction|].
    destruct (Z.eqb_spec (Libc.code c) 43); [contradiction|].
    assert (Hstop : Libc.digits_base 10 0 (String c r) = 0).
    { cbn [Libc.digits_base]. unfold Libc.digit_val.
      unfold Libc.isdigit in Hdig. rewrite Hdig.
      repeat match goal with
             | |- context [if ?b then _ else _] => destruct b eqn:?
             end; try reflexivity;
        match goal with
        | H : (_ <? 10) = true |- _ => apply Z.ltb_lt in H
        end;
        repeat match goal with
               | H : (_ && _) = true |- _ => apply andb_prop in H as [? ?]
               | H : (_ <=? _) = true |- _ => apply Z.leb_le in H
               end; lia. }
    assert (Hzero : (Libc.code c =? 48) = false).
    { unfold Libc.isdigit in Hdig. destruct (Z.eqb_spec (Libc.code c) 48) as [e|]; [|reflexivity].
      rewrite e in Hdig. discriminate. }
    destruct r as [|cx r']; rewrite ?Hzero, Hstop; reflexivity. }
  split; [exact H0|]. intros def. exact H0.
Qed.

Lemma strtoul0_no_number_witness :
  (Libc.isspace "r" = false /\ Libc.isdigit "r" = false /\
   Libc.code "r" <> 45 /\ Libc.code "r" <> 43) /\
  Libc.strtoul0 "red" = 0 /\ parse_color (Some "red") "0xFFFFFF" = 0.
Proof.
  assert (H45 : Libc.code "r" <> 45) by (intros [=]).
  assert (H43 : Libc.code "r" <> 43) by (intros [=]).
  split; [repeat split; assumption|].
  destruct (strtoul0_no_number "r" "ed" eq_refl eq_refl H45 H43) as [H0 Hc].
  split; [exact H0 | exact (Hc "0xFFFFFF")].
Defined.

(** ** What a read looks at *)

Lemma strncpy_nonempty n c r :
  Libc.strncpy (S n) (String c r) = String c (Libc.strncpy n r).
Proof. reflexivity. Qed.

Lemma read_value_content fd data :
  read_value (content fd data) = read_value (content fd (Libc.strncpy 7 data)).
Proof.
  unfold read_value, parsed. destruct data as [|c r]; [reflexivity|].
  rewrite strncpy_nonempty. rewrite <- (strncpy_nonempty 6 c r).
  now rewrite (strncpy_short 7 (Libc.strncpy 7 (String c r)))
    by apply strncpy_length.
Qed.

(** X5.  [read_bool] looks at the first 7 bytes of a source and at nothing
    else: two sources that can both be read and agree on those bytes give
    the same result, whatever follows. *)
Theorem read_bool_first_seven (fs1 fs2 : FS) (p : string) (w : World)
    (fd1 fd2 : N) (d1 d2 : string) :
  fs1 p = content fd1 d1 -> fs2 p = content fd2 d2 ->
  Libc.strncpy 7 d1 = Libc.strncpy 7 d2 ->
  (read_bool fs1 p w).1 = (read_bool fs2 p w).1.
Proof.
  intros H1 H2 Hsame. rewrite !read_bool_run. cbn [fst]. rewrite H1, H2.
  rewrite (read_value_content fd1 d1), (read_value_content fd2 d2), Hsame.
  unfold read_value, parsed. now destruct (Libc.strncpy 7 d2).
Qed.

Lemma read_bool_first_seven_witness :
  let fs1 : FS := λ _, content 3 "00000001" in
  let fs2 : FS := λ _, content 4 "0000000" in
  (fs1 "/sys/a" = content 3 "00000001" /\ fs2 "/sys/a" = content 4 "0000000" /\
   Libc.strncpy 7 "00000001" = Libc.strncpy 7 "0000000") /\
  (read_bool fs1 "/sys/a" idle_world).1 = (read_bool fs2 "/sys/a" idle_world).1 /\
  (read_bool fs2 "/sys/a" idle_world).1 = 0.
Proof.
  intros fs1 fs2. split; [repeat split|]. split.
  - exact (read_bool_first_seven fs1 fs2 "/sys/a" idle_world 3 4
             "00000001" "0000000" eq_refl eq_refl eq_refl).
  - vm_compute. reflexivity.
Defined.

Lemma isdigit_range c : Libc.isdigit c = true -> 48 <= Libc.code c <= 57.
Proof.
  unfold Libc.isdigit. intros [H1 H2]%andb_prop.
  apply Z.leb_le in H1, H2. lia.
Qed.

Lemma digits10_stop acc s :
  match s with
  | EmptyString => True
  | String c _ => Libc.isdigit c = false
  end ->
  Libc.digits10 acc s = acc.
Proof. destruct s as [|c r]; [reflexivity|]. cbn [Libc.digits10]. now intros ->. Qed.

Lemma cstr_head_not_digit s :
  match s with
  | EmptyString => True
  | String c _ => Libc.isdigit c = false
  end ->
  match Libc.cstr s with
  | EmptyString => True
  | String c _ => Libc.isdigit c = false
  end.
Proof.
  destruct s as [|c r]; [exact id|]. unfold Libc.cstr. fold Libc.cstr.
  destruct (Libc.code c =? 0); [intros _; exact I | exact id].
Qed.

Lemma strncpy_head_not_digit n s :
  match s with
  | EmptyString => True
  | String c _ => Libc.isdigit c = false
  end ->
  match Libc.strncpy n s with
  | EmptyString => True
  | String c _ => Libc.isdigit c = false
  end.
Proof. destruct n, s; try exact id; intros _; exact I. Qed.

(** X6.  A source that begins with one decimal digit followed by something
    that is no digit (a newline, as the kernel writes it, or the end of the
    file) reads as the value of that digit. *)
Theorem read_bool_one_digit (fs : FS) (p : string) (w : World)
    (fd : N) (c : ascii) (r : string) :
  fs p = content fd (String c r) ->
  Libc.isdigit c = true ->
  match r with
  | EmptyString => True
  | String c' _ => Libc.isdigit c' = false
  end ->
  (read_bool fs p w).1 = Libc.code c - 48.
Proof.
  intros Hfs Hc Hr. rewrite read_bool_run. cbn [fst]. rewrite Hfs.
  unfold read_value, parsed. cbn [default from_option id].
  pose proof (isdigit_range c Hc) as Hrange.
  rewrite strncpy_nonempty. unfold Libc.cstr. fold Libc.cstr.
  destruct (Z.eqb_spec (Libc.code c) 0); [lia|].
  unfold Libc.atoi. cbn [Libc.skip_space]. unfold Libc.isspace.
  destruct (Z.eqb_spec (Libc.code c) 32); [lia|].
  destruct (Z.leb_spec (Libc.code c) 13); [lia|]. rewrite andb_false_r.
  cbn [orb].
  destruct (Z.eqb_spec (Libc.code c) 45); [lia|].
  destruct (Z.eqb_spec (Libc.code c) 43); [lia|].
  cbn [Libc.digits10]. rewrite Hc.
  rewrite digits10_stop; [lia|].
  apply cstr_head_not_digit, strncpy_head_not_digit, Hr.
Qed.

Lemma read_bool_one_digit_witness :
  let fs : FS := λ _, content 3 ("1" +:+ newline) in
  (fs "/sys/a" = content 3 (String "1" newline) /\ Libc.isdigit "1" = true /\
   Libc.isdigit (ascii_of_N 10) = false) /\
  (read_bool fs "/sys/a" idle_world).1 = 1.
Proof.
  intros fs. split; [repeat split|].
  exact (read_bool_one_digit fs "/sys/a" idle_world 3 "1" newline
           eq_refl eq_refl eq_refl).
Defined.

(** ** [main]: the two failures after the arguments are parsed *)

Lemma main_display_fails env argv wakes :
  (2 <= length argv)%nat -> e_display env = false ->
  run env argv wakes =
    (Some 1,
     let l0 := initial_attr env <$> tail argv in
     mkWorld l0 (e_xid env)
       (initial_reads env l0 ++ [c_XOpenDisplay false; c_perror "XOpenDisplay"])).
Proof.
  intros Hargc Hdpy.
  set (n := (length argv - 1)%nat).
  unfold run, main, boot.
  destruct (Z.ltb_spec (Z.of_nat (length argv)) 2) as [?|_]; [lia|].
  unfold bind at 1. unfold alloc_attrs. cbn [next_xid log].
  replace (Z.to_nat (Z.of_nat (length argv) - 1)) with n by (subst n; lia).
  unfold bind at 1. unfold n_attr at 1. cbn [attrs]. rewrite length_replicate.
  unfold bind at 1.
  rewrite (parse_loop env argv n 0%nat [] (replicate n zero_attr))
    by (try reflexivity; try apply length_replicate; subst n; lia).
  cbn zeta. cbn [attrs next_xid log app].
  replace (take n (drop 1 argv)) with (tail argv)
    by (subst n; symmetry; apply tail_take_drop).
  unfold bind at 1. rewrite emit_run. rewrite Hdpy. cbn [negb].
  unfold bind. rewrite emit_run. unfold ret, initial_reads.
  rewrite append_log_app. reflexivity.
Qed.

Lemma main_inotify_fails env argv wakes :
  (2 <= length argv)%nat -> e_display env = true -> e_ino_fd env < 0 ->
  exists l',
    set_win 0 <$> l' = set_win 0 <$> (initial_attr env <$> tail argv) /\
    win <$> reverse l' = seqZ (e_xid env) (Z.of_nat (length argv - 1)) /\
    run env argv wakes =
      (Some 1,
       mkWorld l' (e_xid env + Z.of_nat (length argv - 1))
         (initial_reads env (initial_attr env <$> tail argv)
          ++ [c_XOpenDisplay true; c_XInternAtom "_XEMBED_INFO";
              c_XInternAtom "_NET_SYSTEM_TRAY_OPCODE"]
          ++ (reverse l' ≫= startup_calls env)
          ++ [c_inotify_init1 (e_ino_fd env); c_perror "inotify_init1"])).
Proof.
  intros Hargc Hdpy Hino.
  set (n := (length argv - 1)%nat).
  set (l0 := initial_attr env <$> tail argv).
  assert (Hl0 : length l0 = n)
    by (subst l0 n; rewrite length_fmap; destruct argv; simpl in *; lia).
  pose (w6 := mkWorld l0 (e_xid env)
                (initial_reads env l0
                 ++ [c_XOpenDisplay true; c_XInternAtom "_XEMBED_INFO";
                     c_XInternAtom "_NET_SYSTEM_TRAY_OPCODE"])).
  destruct (startup_windows_run env w6) as (l' & Hwin & Hsame & Hwins).
  cbn [attrs next_xid log w6] in Hwin, Hsame, Hwins. rewrite Hl0 in Hwin, Hwins.
  exists l'. split; [exact Hsame|]. split; [exact Hwins|].
  unfold run, main, boot.
  destruct (Z.ltb_spec (Z.of_nat (length argv)) 2) as [?|_]; [lia|].
  unfold bind at 1. unfold alloc_attrs. cbn [next_xid log].
  replace (Z.to_nat (Z.of_nat (length argv) - 1)) with n by (subst n; lia).
  unfold bind at 1. unfold n_attr at 1. cbn [attrs]. rewrite length_replicate.
  unfold bind at 1.
  rewrite (parse_loop env argv n 0%nat [] (replicate n zero_attr))
    by (try reflexivity; try apply length_replicate; subst n; lia).
  cbn zeta. cbn [attrs next_xid log app].
  replace (take n (drop 1 argv)) with (tail argv)
    by (subst n; symmetry; apply tail_take_drop).
  fold l0. fold (initial_reads env l0).
  unfold bind at 1. rewrite emit_run. rewrite Hdpy. cbn [negb].
  unfold bind at 1. rewrite emit_run.
  unfold bind at 1. rewrite emit_run.
  rewrite !append_log_app. unfold append_log at 1. cbn [attrs next_xid log app].
  fold w6. unfold bind at 1. rewrite Hwin.
  unfold bind at 1. rewrite emit_run.
  destruct (Z.ltb_spec (e_ino_fd env) 0) as [_|?]; [|lia].
  unfold bind. rewrite emit_run. unfold ret.
  rewrite append_log_app. unfold append_log. cbn [attrs next_xid log].
  f_equal. f_equal. now rewrite <- !app_assoc.
Qed.

(** ** Logs as sequences of groups of calls *)

Section MadeOf.
Context (B : list Call -> Prop).

Lemma made_of_one b : B b -> made_of B b.
Proof.
  intros H. rewrite <- (app_nil_r b). apply made_app; [exact H | apply made_nil].
Qed.

Lemma made_of_app cs ds : made_of B cs -> made_of B ds -> made_of B (cs ++ ds).
Proof.
  induction 1 as [|b cs Hb _ IH]; intros Hds; [exact Hds|].
  rewrite <- app_assoc. apply made_app; [exact Hb | apply IH, Hds].
Qed.

Lemma made_of_bind {A} (f : A -> list Call) (l : list A) :
  (forall x, made_of B (f x)) -> made_of B (l ≫= f).
Proof.
  intros Hf. induction l as [|x l IH]; [apply made_nil|].
  rewrite bind_cons. apply made_of_app; [apply Hf | exact IH].
Qed.

Lemma made_of_Forall (P : Call -> Prop) cs :
  (forall b, B b -> Forall P b) -> made_of B cs -> Forall P cs.
Proof.
  intros HB. induction 1 as [|b cs Hb _ IH]; [constructor|].
  apply Forall_app. split; [apply HB, Hb | exact IH].
Qed.

Lemma total_app f cs ds : total f (cs ++ ds) = total f cs + total f ds.
Proof.
  unfold total. induction cs as [|c cs IH]; cbn [app foldr]; [lia|].
  rewrite IH. lia.
Qed.

Lemma made_of_total f cs :
  (forall b, B b -> total f b = 0) -> made_of B cs -> total f cs = 0.
Proof.
  intros HB. induction 1 as [|b cs Hb _ IH]; [reflexivity|].
  rewrite total_app, (HB b Hb), IH. reflexivity.
Qed.
End MadeOf.

Lemma made_of_weaken (B C : list Call -> Prop) cs :
  (forall b, B b -> C b) -> made_of B cs -> made_of C cs.
Proof.
  intros HBC. induction 1 as [|b cs Hb _ IH]; [apply made_nil|].
  apply made_app; [apply HBC, Hb | exact IH].
Qed.

Create HintDb blocks.
Local Hint Constructors loop_block startup_block made_of : blocks.
Local Hint Resolve made_of_one made_of_app : blocks.

Lemma xevent_calls_blocks l ev : made_of loop_block (xevent_calls l ev).
Proof.
  unfold xevent_calls.
  change (c_XNextEvent ev :: ?t) with ([c_XNextEvent ev] ++ t).
  apply made_of_app; [auto with blocks|].
  destruct (ev_type ev =? Expose); [|apply made_nil].
  destruct (win_owner _ _) as [[i a]|]; auto with blocks.
Qed.

Lemma record_step_blocks r w :
  exists delta, log (record_step r w) = log w ++ delta /\ made_of loop_block delta.
Proof.
  unfold record_step. destruct (wd_owner _ _) as [[i a]|].
  - cbn zeta. destruct (_ && _); eexists; (split; [reflexivity|]);
      auto with blocks.
  - exists []. split; [now rewrite app_nil_r | apply made_nil].
Qed.

Lemma records_step_blocks recs : forall w,
  exists delta, log (records_step recs w) = log w ++ delta /\ made_of loop_block delta.
Proof.
  induction recs as [|r recs IH]; intros w.
  - exists []. split; [simpl; now rewrite app_nil_r | apply made_nil].
  - destruct (record_step_blocks r w) as (d1 & H1 & F1).
    destruct (IH (record_step r w)) as (d2 & H2 & F2).
    exists (d1 ++ d2). split; [|auto with blocks].
    change (records_step (r :: recs) w) with (records_step recs (record_step r w)).
    rewrite H2, H1. now rewrite app_assoc.
Qed.

Lemma turn_blocks wk xr ir w :
  exists delta, log (ino_part wk ir (x_part wk xr w)) = log w ++ delta /\
                made_of loop_block delta.
Proof.
  assert (Hx : exists d, log (x_part wk xr w) = log w ++ d /\ made_of loop_block d).
  { unfold x_part. destruct xr.
    - eexists. split; [reflexivity|].
      apply made_of_bind. intros ev. apply xevent_calls_blocks.
    - exists []. split; [now rewrite app_nil_r | apply made_nil]. }
  destruct Hx as (d1 & H1 & F1).
  unfold ino_part. destruct ir.
  - destruct (0 <? batch_len (wk_records wk)).
    + destruct (records_step_blocks (wk_records wk)
                  (append_log [c_read_inotify (batch_len (wk_records wk))]
                     (x_part wk xr w))) as (d2 & H2 & F2).
      exists (d1 ++ [c_read_inotify (batch_len (wk_records wk))] ++ d2).
      split; [|auto with blocks].
      rewrite H2. cbn [log append_log]. rewrite H1. now rewrite <- !app_assoc.
    + exists (d1 ++ [c_read_inotify (batch_len (wk_records wk))]).
      split; [|auto with blocks].
      cbn [log append_log]. rewrite H1. now rewrite <- app_assoc.
  - exists d1. split; assumption.
Qed.

(** What the loop adds to the log, whatever [select] returns. *)
Lemma event_loop_blocks wakes : forall w,
  exists delta, log (event_loop wakes w).2 = log w ++ delta /\
                made_of loop_block delta.
Proof.
  induction wakes as [|wk wakes IH]; intros w.
  - exists []. split; [simpl; now rewrite app_nil_r | apply made_nil].
  - destruct (wk_select wk) as [errno|xr ir] eqn:Hsel.
    + destruct (decide (errno = EINTR)) as [->|Hne].
      * rewrite (event_loop_eintr _ _ _ Hsel).
        destruct (IH (append_log [c_select (-1)] w)) as (d & Hd & Fd).
        exists ([c_select (-1)] ++ d). split; [|auto with blocks].
        rewrite Hd. cbn [log append_log]. now rewrite <- app_assoc.
      * rewrite (event_loop_fatal _ _ _ _ Hsel Hne). cbn [snd log append_log].
        exists ([c_select (-1)] ++ [c_perror "select"]).
        split; [reflexivity | auto with blocks].
    + rewrite (event_loop_ready _ _ _ _ _ Hsel).
      set (w0 := append_log [c_select (Z.b2z xr + Z.b2z ir)] w).
      destruct (turn_blocks wk xr ir w0) as (d1 & H1 & F1).
      destruct (IH (ino_part wk ir (x_part wk xr w0))) as (d2 & H2 & F2).
      exists ([c_select (Z.b2z xr + Z.b2z ir)] ++ d1 ++ d2).
      split; [|auto with blocks].
      rewrite H2, H1. subst w0. cbn [log append_log]. now rewrite <- !app_assoc.
Qed.

(** ** How and when the process ends *)

Lemma event_loop_end wakes : forall w,
  (event_loop wakes w).1 = if existsb fatal_wake wakes then loop_break else loop_blocked.
Proof.
  induction wakes as [|wk wakes IH]; intros w; [reflexivity|].
  cbn [existsb]. unfold fatal_wake at 1.
  destruct (wk_select wk) as [errno|xr ir] eqn:Hsel.
  - destruct (Z.eqb_spec errno EINTR) as [->|Hne]; cbn [negb orb].
    + rewrite (event_loop_eintr _ _ _ Hsel). apply IH.
    + now rewrite (event_loop_fatal _ _ _ _ Hsel Hne).
  - rewrite (event_loop_ready _ _ _ _ _ Hsel). cbn [orb]. apply IH.
Qed.

(** X7.  The process exits with code 0 exactly when it has reached the loop
    and [select] fails with an error other than [EINTR]; as long as [select]
    succeeds or is interrupted the process is still running.  Nothing the
    X connection or the notification stream delivers ends it. *)
Theorem exit_code_zero (env : Env) (argv : list string) (wakes : list Wake) :
  ((run env argv wakes).1 = Some 0 <->
   (2 <= length argv)%nat /\ e_display env = true /\ 0 <= e_ino_fd env /\
   existsb fatal_wake wakes = true) /\
  ((run env argv wakes).1 = None <->
   (2 <= length argv)%nat /\ e_display env = true /\ 0 <= e_ino_fd env /\
   existsb fatal_wake wakes = false).
Proof.
  unfold run.
  destruct (main_startup env argv (boot env))
    as [(Hfail & w' & Hrun) | (Hargc & Hdpy & Hino & w1 & Hrun)];
    rewrite (Hrun wakes); cbn [fst].
  - split; (split; [discriminate|]); intros (? & ? & ? & _);
      destruct Hfail as [?|[?|?]]; solve [lia | congruence].
  - rewrite event_loop_end.
    destruct (existsb fatal_wake wakes); split; split;
      try discriminate; try (intros (_ & _ & _ & ?); discriminate);
      intros _; repeat split; assumption.
Qed.

(** ** What the loop leaves alone *)

Lemma record_step_frame r w :
  set_state 0 <$> attrs (record_step r w) = set_state 0 <$> attrs w /\
  next_xid (record_step r w) = next_xid w.
Proof.
  unfold record_step.
  destruct (wd_owner _ _) as [[i a]|] eqn:Hown; [|now split].
  apply wd_owner_lookup in Hown as [Hlk _]. cbn zeta.
  destruct (_ && _); [|now split].
  cbn [attrs next_xid append_log with_attrs]. split; [|reflexivity].
  rewrite list_fmap_insert.
  apply list_insert_id. now rewrite list_lookup_fmap, Hlk.
Qed.

Lemma records_step_frame recs : forall w,
  set_state 0 <$> attrs (records_step recs w) = set_state 0 <$> attrs w /\
  next_xid (records_step recs w) = next_xid w.
Proof.
  induction recs as [|r recs IH]; intros w; [now split|].
  change (records_step (r :: recs) w) with (records_step recs (record_step r w)).
  destruct (IH (record_step r w)) as [Ha Hx].
  destruct (record_step_frame r w) as [Ha' Hx']. split; congruence.
Qed.

Lemma turn_frame wk xr ir w :
  set_state 0 <$> attrs (ino_part wk ir (x_part wk xr w)) = set_state 0 <$> attrs w /\
  next_xid (ino_part wk ir (x_part wk xr w)) = next_xid w.
Proof.
  assert (Hx : attrs (x_part wk xr w) = attrs w /\ next_xid (x_part wk xr w) = next_xid w)
    by (unfold x_part; destruct xr; now split).
  destruct Hx as [Ha Hn]. unfold ino_part. destruct ir; [|now rewrite Ha, Hn].
  destruct (0 <? _).
  - destruct (records_step_frame (wk_records wk)
                (append_log [c_read_inotify (batch_len (wk_records wk))]
                   (x_part wk xr w))) as [Ha' Hn'].
    cbn [attrs next_xid append_log] in Ha', Hn'. split; congruence.
  - cbn [attrs next_xid append_log]. now rewrite Ha, Hn.
Qed.

Lemma event_loop_frame wakes : forall w,
  set_state 0 <$> attrs (event_loop wakes w).2 = set_state 0 <$> attrs w /\
  next_xid (event_loop wakes w).2 = next_xid w.
Proof.
  induction wakes as [|wk wakes IH]; intros w; [now split|].
  destruct (wk_select wk) as [errno|xr ir] eqn:Hsel.
  - destruct (decide (errno = EINTR)) as [->|Hne].
    + rewrite (event_loop_eintr _ _ _ Hsel).
      apply (IH (append_log [c_select (-1)] w)).
    + rewrite (event_loop_fatal _ _ _ _ Hsel Hne). now split.
  - rewrite (event_loop_ready _ _ _ _ _ Hsel).
    set (w0 := append_log _ w).
    destruct (IH (ino_part wk ir (x_part wk xr w0))) as [Ha Hn].
    destruct (turn_frame wk xr ir w0) as [Ha' Hn'].
    split; [rewrite Ha, Ha' | rewrite Hn, Hn']; reflexivity.
Qed.

Lemma loop_block_no_window_call b :
  loop_block b -> Forall (λ c, is_window_call c = false) b.
Proof.
  intros [r|s|ev|n|p s|a]; try solve [repeat constructor].
  - destruct s; repeat constructor.
  - unfold icon_calls. destruct (truthy (state a)); repeat constructor.
Qed.

(** X8.  However long the loop runs, it changes nothing of a descriptor but
    its cached state (path, label, colours, watch descriptor and window stay
    as they were at the start of the loop), and it creates, maps and docks
    nothing: a window that was not docked at startup is never docked
    later. *)
Theorem loop_changes_state_only (wakes : list Wake) (w : World) :
  let w' := (event_loop wakes w).2 in
  set_state 0 <$> attrs w' = set_state 0 <$> attrs w /\
  exists delta,
    log w' = log w ++ delta /\ Forall (λ c, is_window_call c = false) delta.
Proof.
  cbn zeta. destruct (event_loop_frame wakes w) as [Ha _].
  destruct (event_loop_blocks wakes w) as (delta & Hlog & Hblocks).
  split; [exact Ha|].
  exists delta. split; [exact Hlog|].
  eapply made_of_Forall; [apply loop_block_no_window_call | exact Hblocks].
Qed.

(** ** The log of a whole run *)

Lemma initial_reads_blocks env l : made_of (program_block env) (initial_reads env l).
Proof.
  apply made_of_bind. intros a. apply made_of_one. left. constructor.
Qed.

Lemma startup_calls_blocks env l :
  made_of (program_block env) (l ≫= startup_calls env).
Proof.
  apply made_of_bind. intros a. unfold startup_calls.
  apply made_of_app; apply made_of_one; left; constructor.
Qed.

Lemma watch_calls_blocks env l :
  made_of (program_block env) (l ≫= watch_calls env).
Proof.
  apply made_of_bind. intros a. apply made_of_one. left. constructor.
Qed.

Lemma single_block env c :
  startup_block env [c] -> forall cs,
  made_of (program_block env) cs -> made_of (program_block env) (c :: cs).
Proof.
  intros Hc cs Hcs. change (c :: cs) with ([c] ++ cs).
  apply made_app; [now left | exact Hcs].
Qed.

(** Every run, however it ends, logs a sequence of the groups of calls of
    [main] and of the loop. *)
Lemma run_blocks env argv wakes :
  made_of (program_block env) (log (run env argv wakes).2).
Proof.
  destruct (decide (length argv < 2)%nat) as [Hargc|Hargc].
  { unfold run. rewrite main_usage by exact Hargc. cbn [snd log append_log boot app].
    apply single_block; [constructor | apply made_nil]. }
  destruct (e_display env) eqn:Hdpy.
  2:{ rewrite main_display_fails by (lia || assumption). cbn [snd log].
      apply made_of_app; [apply initial_reads_blocks|].
      repeat (apply single_block; [constructor|]). apply made_nil. }
  destruct (decide (e_ino_fd env < 0)) as [Hino|Hino].
  { destruct (main_inotify_fails env argv wakes ltac:(lia) Hdpy Hino)
      as (l' & _ & _ & ->). cbn [snd log].
    apply made_of_app; [apply initial_reads_blocks|].
    repeat (apply single_block; [constructor|]).
    apply made_of_app; [apply startup_calls_blocks|].
    repeat (apply single_block; [constructor|]). apply made_nil. }
  destruct (main_started env argv ltac:(lia) Hdpy ltac:(lia)) as (l' & _ & _ & Hrun).
  rewrite (Hrun wakes). cbn zeta. cbn [snd].
  destruct (event_loop_blocks wakes
              (mkWorld (watched env <$> l')
                 (e_xid env + Z.of_nat (length argv - 1))
                 (startup_log env (initial_attr env <$> tail argv) l')))
    as (delta & -> & Hdelta).
  cbn [log]. apply made_of_app.
  - unfold startup_log.
    apply made_of_app; [apply initial_reads_blocks|].
    repeat (apply single_block; [constructor|]).
    apply made_of_app; [apply startup_calls_blocks|].
    repeat (apply single_block; [constructor|]).
    apply watch_calls_blocks.
  - eapply made_of_weaken; [|exact Hdelta]. intros b Hb. now right.
Qed.

(** ** Resources *)

Lemma read_calls_closed p s : total fd_weight (read_calls p s) = 0.
Proof.
  destruct s as [|fd|fd data]; cbn [read_calls total foldr fd_weight];
    try reflexivity;
    destruct (Z.leb_spec 0 (Z.of_N fd)); lia.
Qed.

Lemma icon_calls_freed a : total gc_weight (icon_calls a) = 0.
Proof. unfold icon_calls. destruct (truthy (state a)); reflexivity. Qed.

Lemma icon_calls_no_fd a : total fd_weight (icon_calls a) = 0.
Proof. unfold icon_calls. destruct (truthy (state a)); reflexivity. Qed.

Lemma program_block_balanced env b :
  program_block env b -> total gc_weight b = 0 /\ total fd_weight b = 0.
Proof.
  intros [Hb|Hb]; destruct Hb;
    try solve [split; reflexivity];
    try solve [split; [now destruct s | apply read_calls_closed]];
    try solve [split; [apply icon_calls_freed | apply icon_calls_no_fd]].
  - unfold window_calls. destruct (e_tray env =? 0); split; reflexivity.
  - unfold watch_calls. destruct (_ <? 0); split; reflexivity.
Qed.

(** X9.  On every run, whatever the arguments, the environment and the
    events, and however the run ends, every graphics context that was
    created has been freed and every source file that was opened has been
    closed: drawing and reading leak nothing. *)
Theorem nothing_leaks (env : Env) (argv : list string) (wakes : list Wake) :
  total gc_weight (log (run env argv wakes).2) = 0 /\
  total fd_weight (log (run env argv wakes).2) = 0.
Proof.
  pose proof (run_blocks env argv wakes) as Hblocks. split.
  - eapply made_of_total; [|exact Hblocks].
    intros b Hb. apply (program_block_balanced env b Hb).
  - eapply made_of_total; [|exact Hblocks].
    intros b Hb. apply (program_block_balanced env b Hb).
Qed.

Lemma program_block_no_send env b :
  e_tray env = 0 -> program_block env b -> Forall (λ c, is_send_event c = false) b.
Proof.
  intros Htray [Hb|Hb]; destruct Hb;
    try solve [repeat constructor];
    try solve [destruct s; repeat constructor];
    try solve [unfold icon_calls; destruct (truthy (state a)); repeat constructor].
  - unfold window_calls. rewrite Htray. repeat constructor.
  - unfold watch_calls. destruct (_ <? 0); repeat constructor.
Qed.

(** X10.  When the tray selection has no owner, the program never sends a
    message to any window, at startup or later: docking is skipped without
    a trace and is not tried again when events arrive. *)
Theorem no_tray_no_message (env : Env) (argv : list string) (wakes : list Wake) :
  e_tray env = 0 ->
  Forall (λ c, is_send_event c = false) (log (run env argv wakes).2).
Proof.
  intros Htray. eapply made_of_Forall; [|apply run_blocks].
  intros b Hb. now apply program_block_no_send with env.
Qed.

Lemma no_tray_no_message_witness :
  let env := mkEnv demo_fs true 0 0 100 4 (λ _, 1) "" in
  e_tray env = 0 /\
  Forall (λ c, is_send_event c = false)
    (log (run env demo_argv [wake_expose; wake_eintr]).2).
Proof.
  intros env. split; [reflexivity|].
  exact (no_tray_no_message env demo_argv [wake_expose; wake_eintr] eq_refl).
Defined.

(** ** Failures between parsing and the loop *)

Lemma omap_bind_calls {A} (f : Call -> option A) (calls : Attr -> list Call) l :
  omap f (l ≫= calls) = l ≫= λ a, omap f (calls a).
Proof.
  induction l as [|a l IH]; [reflexivity|].
  now rewrite !bind_cons, omap_app, IH.
Qed.

Lemma omap_none_Forall {A} (f : Call -> option A) cs :
  Forall (λ c, f c = None) cs -> omap f cs = [].
Proof.
  induction 1 as [|c cs Hc _ IH]; [reflexivity|].
  cbn [omap list_omap]. now rewrite Hc.
Qed.

Lemma read_calls_mute {A} (f : Call -> option A) p s :
  (forall q r, f (c_open q r) = None) ->
  (forall fd n r, f (c_read fd n r) = None) ->
  (forall fd, f (c_close fd) = None) ->
  omap f (read_calls p s) = [].
Proof.
  intros H1 H2 H3. destruct s; cbn [read_calls omap list_omap];
    now rewrite ?H1, ?H2, ?H3.
Qed.

Lemma bind_nil_all {A B} (g : A -> list B) (l : list A) :
  (forall a, g a = []) -> l ≫= g = [].
Proof.
  intros Hg. induction l as [|a l IH]; [reflexivity|].
  now rewrite bind_cons, Hg, IH.
Qed.

Lemma read_calls_not_window p s : Forall (λ c, is_window_call c = false) (read_calls p s).
Proof. destruct s; repeat constructor. Qed.

(** X11.  When the display cannot be opened the process exits with code 1
    after it has parsed every argument and read every source once, in the
    order of the arguments: the descriptors hold those first states, and the
    log holds those reads, the failed [XOpenDisplay] and its [perror];
    no window exists, nothing is watched, and what [select] would return
    plays no part. *)
Theorem display_failure (env : Env) (argv : list string) (wakes : list Wake) :
  (2 <= length argv)%nat -> e_display env = false ->
  let r := run env argv wakes in
  r.1 = Some 1 /\
  attrs r.2 = initial_attr env <$> tail argv /\
  log r.2 = initial_reads env (attrs r.2)
            ++ [c_XOpenDisplay false; c_perror "XOpenDisplay"] /\
  Forall (λ c, is_window_call c = false) (log r.2) /\
  omap watch_request (log r.2) = [].
Proof.
  intros Hargc Hdpy. cbn zeta. rewrite (main_display_fails env argv wakes Hargc Hdpy).
  cbn zeta. cbn [fst snd attrs log].
  split; [reflexivity|]. split; [reflexivity|]. split; [reflexivity|]. split.
  - apply Forall_app. split; [|repeat constructor].
    unfold initial_reads. apply Forall_bind. apply Forall_forall.
    intros a _. apply read_calls_not_window.
  - rewrite omap_app. unfold initial_reads. rewrite omap_bind_calls.
    cbn [omap list_omap watch_request]. rewrite app_nil_r.
    apply bind_nil_all. intros a. now apply read_calls_mute.
Qed.

Lemma display_failure_witness :
  let env := mkEnv demo_fs false 0 77 100 4 (λ _, 1) "" in
  ((2 <= length demo_argv)%nat /\ e_display env = false) /\
  let r := run env demo_argv [wake_expose] in
  r.1 = Some 1 /\
  attrs r.2 = initial_attr env <$> tail demo_argv /\
  log r.2 = initial_reads env (attrs r.2)
            ++ [c_XOpenDisplay false; c_perror "XOpenDisplay"] /\
  Forall (λ c, is_window_call c = false) (log r.2) /\
  omap watch_request (log r.2) = [].
Proof.
  intros env.
  assert (Hargc : (2 <= length demo_argv)%nat) by (unfold demo_argv; simpl; lia).
  split; [split; [exact Hargc | reflexivity]|].
  exact (display_failure env demo_argv [wake_expose] Hargc eq_refl).
Defined.

Lemma startup_calls_quiet {A} (f : Call -> option A) env a :
  (forall c, is_window_call c = true -> f c = None) ->
  f (c_XCreateGC (win a)) = None ->
  (forall c, f (c_XSetForeground c) = None) ->
  f (c_XFillRectangle (win a) 0 0 ICON_SZ ICON_SZ) = None ->
  (forall x y s n, f (c_XDrawString (win a) x y s n) = None) ->
  f c_XFreeGC = None -> f c_XSync = None ->
  omap f (startup_calls env a) = [].
Proof.
  intros Hw H1 H2 H3 H4 H5 H6. unfold startup_calls. rewrite omap_app.
  assert (Hicon : omap f (icon_calls a) = []).
  { unfold icon_calls. destruct (truthy (state a)); cbn [app omap list_omap];
      now rewrite ?H1, ?H2, ?H3, ?H4, ?H5, ?H6. }
  rewrite Hicon, app_nil_r. unfold window_calls.
  destruct (e_tray env =? 0); cbn [app omap list_omap];
    rewrite !Hw by reflexivity; reflexivity.
Qed.

(** X12.  When [inotify_init1] fails the process exits with code 1, but
    only after every window has been created, mapped, docked and painted,
    in the reverse order of the arguments: the icons were handed to the tray
    before the exit.  Nothing is watched, and the last two calls are the
    failed [inotify_init1] and its [perror]. *)
Theorem inotify_failure (env : Env) (argv : list string) (wakes : list Wake) :
  (2 <= length argv)%nat -> e_display env = true -> e_ino_fd env < 0 ->
  let r := run env argv wakes in
  r.1 = Some 1 /\
  set_win 0 <$> attrs r.2 = set_win 0 <$> (initial_attr env <$> tail argv) /\
  omap created_window (log r.2) = reverse (win <$> attrs r.2) /\
  omap painted_window (log r.2) = reverse (win <$> attrs r.2) /\
  tray_row (e_tray env) (log r.2)
    = (if e_tray env =? 0 then [] else win <$> attrs r.2) /\
  omap watch_request (log r.2) = [] /\
  exists cs, log r.2 = cs ++ [c_inotify_init1 (e_ino_fd env); c_perror "inotify_init1"].
Proof.
  intros Hargc Hdpy Hino. cbn zeta.
  destruct (main_inotify_fails env argv wakes Hargc Hdpy Hino)
    as (l' & Hsame & _ & ->).
  cbn [fst snd attrs log].
  assert (Hproj : forall (f : Call -> option Z),
            (forall q r, f (c_open q r) = None) ->
            (forall fd n r, f (c_read fd n r) = None) ->
            (forall fd, f (c_close fd) = None) ->
            (forall b, f (c_XOpenDisplay b) = None) ->
            (forall s, f (c_XInternAtom s) = None) ->
            (forall r, f (c_inotify_init1 r) = None) ->
            (forall s, f (c_perror s) = None) ->
            omap f (initial_reads env (initial_attr env <$> tail argv)
                    ++ [c_XOpenDisplay true; c_XInternAtom "_XEMBED_INFO";
                        c_XInternAtom "_NET_SYSTEM_TRAY_OPCODE"]
                    ++ (reverse l' ≫= startup_calls env)
                    ++ [c_inotify_init1 (e_ino_fd env); c_perror "inotify_init1"])
            = omap f (reverse l' ≫= startup_calls env)).
  { intros f H1 H2 H3 H4 H5 H6 H7. rewrite !omap_app. unfold initial_reads.
    rewrite (omap_bind_none f _ (initial_attr env <$> tail argv))
      by (intros a; now apply read_calls_silent).
    cbn [omap list_omap]. rewrite H4, !H5, H6, H7. cbn [app]. apply app_nil_r. }
  split; [reflexivity|]. split; [exact Hsame|].
  rewrite <- fmap_reverse.
  split; [|split; [|split; [|split]]].
  - rewrite Hproj by reflexivity. apply omap_bind_wins, startup_calls_created.
  - rewrite Hproj by reflexivity. apply omap_bind_wins, startup_calls_painted.
  - rewrite tray_row_requests, Hproj by reflexivity.
    destruct (e_tray env =? 0) eqn:Htray.
    + rewrite omap_bind_none; [reflexivity|].
      intros a. rewrite startup_calls_docked. now rewrite Htray.
    + rewrite (omap_bind_wins _ (startup_calls env)), fmap_reverse.
      * apply reverse_involutive.
      * intros a. rewrite startup_calls_docked. now rewrite Htray.
  - rewrite !omap_app. unfold initial_reads.
    rewrite !omap_bind_calls.
    rewrite (bind_nil_all (λ a, omap watch_request (read_calls _ _)))
      by (intros a; now apply read_calls_mute).
    rewrite (bind_nil_all (λ a, omap watch_request (startup_calls env a))).
    + reflexivity.
    + intros a. apply startup_calls_quiet; try reflexivity.
      intros c. destruct c; try discriminate; reflexivity.
  - eexists. rewrite !app_assoc. reflexivity.
Qed.

Lemma inotify_failure_witness :
  let env := mkEnv demo_fs true 0 77 100 (-1) (λ _, 1) "" in
  ((2 <= length demo_argv)%nat /\ e_display env = true /\ e_ino_fd env < 0) /\
  let r := run env demo_argv [wake_expose] in
  r.1 = Some 1 /\
  set_win 0 <$> attrs r.2 = set_win 0 <$> (initial_attr env <$> tail demo_argv) /\
  omap created_window (log r.2) = reverse (win <$> attrs r.2) /\
  omap painted_window (log r.2) = reverse (win <$> attrs r.2) /\
  tray_row (e_tray env) (log r.2)
    = (if e_tray env =? 0 then [] else win <$> attrs r.2) /\
  omap watch_request (log r.2) = [] /\
  exists cs, log r.2 = cs ++ [c_inotify_init1 (e_ino_fd env); c_perror "inotify_init1"].
Proof.
  intros env.
  assert (Hargc : (2 <= length demo_argv)%nat) by (unfold demo_argv; simpl; lia).
  assert (Hino : e_ino_fd env < 0) by (subst env; simpl; lia).
  split; [split; [exact Hargc | split; [reflexivity | exact Hino]]|].
  exact (inotify_failure env demo_argv [wake_expose] Hargc eq_refl Hino).
Defined.

(** ** Which descriptor a record reaches *)

(** X13.  A notification record reaches one descriptor at most: the first,
    in the order of the arguments, that carries its watch descriptor.  Every
    other descriptor is left as it was, also one that carries the same watch
    descriptor (two arguments naming one file): it is never refreshed.  A
    record whose watch descriptor no descriptor carries changes nothing and
    reads nothing. *)
Theorem record_reaches_first_only (ie : InotifyEvent) (fs : FS) (w : World) :
  (forall i a j b,
     wd_owner (ie_wd ie) (attrs w) = Some (i, a) ->
     attrs w !! j = Some b -> j <> i ->
     attrs (on_record (ie, fs) w).2 !! j = Some b) /\
  (wd_owner (ie_wd ie) (attrs w) = None -> on_record (ie, fs) w = (tt, w)).
Proof.
  split.
  - intros i a j b Hown Hj Hne. rewrite (record_owner _ _ _ _ _ Hown).
    cbn zeta. cbn [snd].
    destruct (_ && _); cbn [attrs append_log with_attrs]; [|exact Hj].
    rewrite list_lookup_insert_ne by congruence. exact Hj.
  - intros Hnone. now apply (record_no_owner (ie, fs)).
Qed.

Lemma record_reaches_first_only_witness :
  let one : FS := λ _, content 3 ("1" +:+ newline) in
  (wd_owner 5 (attrs twin_world)
     = Some (0%nat, mkAttr "/sys/a" "A" 0 16711680 2105376 0 5 100) /\
   attrs twin_world !! 1%nat = Some (mkAttr "/sys/a" "B" 0 65280 2105376 0 5 101) /\
   1%nat <> 0%nat /\
   wd_owner 6 (attrs twin_world) = None) /\
  attrs (on_record (mkIno 5 2 0, one) twin_world).2 !! 1%nat
    = Some (mkAttr "/sys/a" "B" 0 65280 2105376 0 5 101) /\
  state <$> attrs (on_record (mkIno 5 2 0, one) twin_world).2 = [1; 0] /\
  on_record (mkIno 6 2 0, one) twin_world = (tt, twin_world).
Proof.
  intros one.
  assert (Hne : 1%nat <> 0%nat) by discriminate.
  split; [repeat split; assumption|].
  split; [|split].
  - exact (proj1 (record_reaches_first_only (mkIno 5 2 0) one twin_world)
             0%nat _ 1%nat _ eq_refl eq_refl Hne).
  - vm_compute. reflexivity.
  - exact (proj2 (record_reaches_first_only (mkIno 6 2 0) one twin_world) eq_refl).
Defined.

(** ** The descriptors when the loop is entered *)

Lemma set_win_determines a b x :
  set_win 0 b = set_win 0 a -> win b = x -> b = set_win x a.
Proof.
  destruct a, b. unfold set_win. cbn. intros [= -> -> -> -> -> -> ->] ->.
  reflexivity.
Qed.

(** X14.  On a run that reaches the loop there is one descriptor for each
    argument, in the order of the arguments.  The descriptor of argument
    [i + 1] holds the fields parsed from it, the state first read from its
    path, the result of [inotify_add_watch] on that path, and a window of
    its own: the windows are created from the last argument to the first,
    so that, counting from 0, it is the window returned by the creation
    whose rank is the number of arguments that follow this one. *)
Theorem descriptor_table (env : Env) (argv : list string) (i : nat) (arg : string) :
  (2 <= length argv)%nat -> e_display env = true -> 0 <= e_ino_fd env ->
  tail argv !! i = Some arg ->
  let w := (run env argv []).2 in
  let a0 := parse_arg arg in
  length (attrs w) = (length argv - 1)%nat /\
  exists x,
    attrs w !! i =
      Some (mkAttr (path a0) (label a0) (fg a0) (bg_active a0) (bg_inactive a0)
              (read_value (e_fs env (path a0)))
              (e_add_watch env (path a0))
              x) /\
    omap created_window (log w) !! (length argv - 2 - i)%nat = Some x.
Proof.
  intros Hargc Hdpy Hino Harg. cbn zeta.
  destruct (main_started env argv Hargc Hdpy Hino) as (l' & Hsame & _ & Hrun).
  rewrite (Hrun []). cbn zeta. cbn [event_loop ret snd attrs log].
  assert (Hlen : length l' = (length argv - 1)%nat).
  { rewrite <- (length_fmap (set_win 0) l'), Hsame, !length_fmap.
    destruct argv; simpl; lia. }
  assert (Hi : (i < length argv - 1)%nat).
  { apply lookup_lt_Some in Harg. destruct argv; simpl in *; lia. }
  split; [now rewrite length_fmap|].
  destruct (lookup_lt_is_Some_2 l' i ltac:(lia)) as [b Hb].
  assert (Hb0 : set_win 0 b = set_win 0 (initial_attr env arg)).
  { assert (H : (set_win 0 <$> l') !! i = Some (set_win 0 b))
      by (now rewrite list_lookup_fmap, Hb).
    rewrite Hsame, !list_lookup_fmap, Harg in H. cbn in H. congruence. }
  exists (win b). split.
  - rewrite list_lookup_fmap, Hb.
    rewrite (set_win_determines _ _ _ Hb0 eq_refl). reflexivity.
  - rewrite startup_log_windows by reflexivity.
    rewrite (omap_bind_wins created_window (startup_calls env))
      by apply startup_calls_created.
    rewrite list_lookup_fmap, reverse_lookup by lia.
    replace (length l' - S (length argv - 2 - i))%nat with i by lia.
    now rewrite Hb.
Qed.

Lemma descriptor_table_witness :
  ((2 <= length demo_argv)%nat /\ e_display demo_env = true /\
   0 <= e_ino_fd demo_env /\
   tail demo_argv !! 1%nat = Some "/sys/b:ALT:0x000000:0xFFFF00:0x303030") /\
  length (attrs (run demo_env demo_argv []).2) = 2%nat /\
  exists x,
    attrs (run demo_env demo_argv []).2 !! 1%nat
      = Some (mkAttr "/sys/b" "ALT" 0 16776960 3158064 (-1) (-1) x) /\
    omap created_window (log (run demo_env demo_argv []).2) !! 0%nat = Some x.
Proof.
  assert (Hargc : (2 <= length demo_argv)%nat) by (unfold demo_argv; simpl; lia).
  assert (Hino : 0 <= e_ino_fd demo_env) by (unfold demo_env; simpl; lia).
  split; [repeat split; try reflexivity; assumption|].
  destruct (descriptor_table demo_env demo_argv 1
              "/sys/b:ALT:0x000000:0xFFFF00:0x303030" Hargc eq_refl Hino eq_refl)
    as [Hlen (x & Hat & Hcr)].
  split; [exact Hlen|].
  exists x. split; [|exact Hcr].
  etransitivity; [exact Hat | vm_compute; reflexivity].
Defined.

(** ** Registration of the watches *)

Lemma startup_log_mute {A} (f : Call -> option A) env l0 l' :
  (forall q r, f (c_open q r) = None) ->
  (forall fd n r, f (c_read fd n r) = None) ->
  (forall fd, f (c_close fd) = None) ->
  (forall b, f (c_XOpenDisplay b) = None) ->
  (forall s, f (c_XInternAtom s) = None) ->
  (forall r, f (c_inotify_init1 r) = None) ->
  (forall a, omap f (startup_calls env a) = []) ->
  omap f (startup_log env l0 l') = l' ≫= λ a, omap f (watch_calls env a).
Proof.
  intros H1 H2 H3 H4 H5 H6 H7. unfold startup_log.
  rewrite !omap_app, !omap_bind_calls.
  rewrite (bind_nil_all (λ a, omap f (read_calls _ _)))
    by (intros a; now apply read_calls_mute).
  rewrite (bind_nil_all (λ a, omap f (startup_calls env a))) by exact H7.
  cbn [omap list_omap]. now rewrite H4, !H5, H6.
Qed.

Lemma bind_via_path {B} (g : string -> list B) (l l0 : list Attr) :
  set_win 0 <$> l = set_win 0 <$> l0 ->
  (l ≫= λ a, g (path a)) = (path <$> l0) ≫= g.
Proof.
  intros Hsame.
  rewrite <- (fmap_via_set_win path l0 l (λ _, eq_refl) Hsame).
  now rewrite list_fmap_bind.
Qed.

Lemma bind_ext_all {A B} (g h : A -> list B) (l : list A) :
  (forall a, g a = h a) -> l ≫= g = l ≫= h.
Proof.
  intros Hgh. induction l as [|a l IH]; [reflexivity|].
  now rewrite !bind_cons, Hgh, IH.
Qed.

Lemma watch_calls_request env a : omap watch_request (watch_calls env a) = [path a].
Proof. unfold watch_calls. destruct (_ <? 0); reflexivity. Qed.

Lemma watch_calls_warning env a :
  omap stderr_line (watch_calls env a)
  = if e_add_watch env (path a) <? 0 then [watch_warning env (path a)] else [].
Proof. unfold watch_calls, watch_warning. destruct (_ <? 0); reflexivity. Qed.

(** X15.  On a run that reaches the loop every argument is registered with
    inotify, once and in the order of the arguments, whether or not earlier
    registrations failed; the error stream receives one warning for each
    registration that fails, naming its path, and nothing else. *)
Theorem registration_goes_on (env : Env) (argv : list string) :
  (2 <= length argv)%nat -> e_display env = true -> 0 <= e_ino_fd env ->
  let w := (run env argv []).2 in
  let paths := (λ arg, path (parse_arg arg)) <$> tail argv in
  omap watch_request (log w) = paths /\
  omap stderr_line (log w)
    = (paths ≫= λ p, if e_add_watch env p <? 0 then [watch_warning env p] else []) /\
  wd <$> attrs w = e_add_watch env <$> paths.
Proof.
  intros Hargc Hdpy Hino. cbn zeta.
  destruct (main_started env argv Hargc Hdpy Hino) as (l' & Hsame & _ & Hrun).
  rewrite (Hrun []). cbn zeta. cbn [event_loop ret snd attrs log].
  assert (Hquiet : forall {A} (f : Call -> option A),
            (forall c, is_window_call c = true -> f c = None) ->
            (forall x, f (c_XCreateGC x) = None) ->
            (forall c, f (c_XSetForeground c) = None) ->
            (forall x a b c d, f (c_XFillRectangle x a b c d) = None) ->
            (forall x a b s n, f (c_XDrawString x a b s n) = None) ->
            f c_XFreeGC = None -> f c_XSync = None ->
            forall a, omap f (startup_calls env a) = [])
    by (intros A f Hw G1 G2 G3 G4 G5 G6 a; apply startup_calls_quiet; auto).
  assert (Hpaths : path <$> (initial_attr env <$> tail argv)
                   = (λ arg, path (parse_arg arg)) <$> tail argv)
    by (rewrite <- list_fmap_compose; reflexivity).
  split; [|split].
  - rewrite startup_log_mute; try reflexivity.
    + rewrite (bind_ext_all _ (λ a, [path a]) l' (watch_calls_request env)).
      rewrite (bind_via_path (λ p, [p]) l' _ Hsame), Hpaths.
      generalize ((λ arg, path (parse_arg arg)) <$> tail argv).
      intros l. induction l as [|p l IH]; [reflexivity|].
      rewrite bind_cons, IH. reflexivity.
    + apply Hquiet; try reflexivity. intros c; destruct c; try discriminate; reflexivity.
  - rewrite startup_log_mute; try reflexivity.
    + rewrite <- Hpaths.
      rewrite <- (bind_via_path
                    (λ p, if e_add_watch env p <? 0 then [watch_warning env p] else [])
                    l' _ Hsame).
      apply bind_ext_all, watch_calls_warning.
    + apply Hquiet; try reflexivity. intros c; destruct c; try discriminate; reflexivity.
  - rewrite <- Hpaths.
    rewrite <- (fmap_via_set_win path _ l' (λ _, eq_refl) Hsame).
    rewrite <- !list_fmap_compose. reflexivity.
Qed.

Lemma registration_goes_on_witness :
  ((2 <= length demo_argv)%nat /\ e_display demo_env = true /\
   0 <= e_ino_fd demo_env) /\
  let w := (run demo_env demo_argv []).2 in
  let paths := (λ arg, path (parse_arg arg)) <$> tail demo_argv in
  omap watch_request (log w) = paths /\
  omap stderr_line (log w)
    = (paths ≫= λ p, if e_add_watch demo_env p <? 0
                      then [watch_warning demo_env p] else []) /\
  wd <$> attrs w = e_add_watch demo_env <$> paths.
Proof.
  assert (Hargc : (2 <= length demo_argv)%nat) by (unfold demo_argv; simpl; lia).
  assert (Hino : 0 <= e_ino_fd demo_env) by (unfold demo_env; simpl; lia).
  split; [split; [exact Hargc | split; [reflexivity | exact Hino]]|].
  exact (registration_goes_on demo_env demo_argv Hargc eq_refl Hino).
Defined.

(** In figures: the first path is watched, the second is not and is the only
    one warned about. *)
Example one_warning_for_the_missing_path :
  let w := (run demo_env demo_argv []).2 in
  omap watch_request (log w) = ["/sys/a"; "/sys/b"] /\
  omap stderr_line (log w)
    = ["warning: cannot watch /sys/b (No such file or directory)" +:+ newline] /\
  wd <$> attrs w = [1; -1].
Proof. vm_compute. repeat split. Qed.

(** X16.  A descriptor whose registration failed keeps a negative watch
    descriptor, and as long as every record carries a watch descriptor the
    kernel has given out (none of those is negative) the loop never changes
    that descriptor, however many events arrive: its state stays the one
    read at startup. *)
Theorem unwatched_never_updated (wakes : list Wake) (w : World) (i : nat) (a : Attr) :
  attrs w !! i = Some a -> wd a < 0 ->
  Forall (λ wk, Forall (λ r : InotifyEvent * FS, 0 <= ie_wd (r.1)) (wk_records wk))
    wakes ->
  attrs (event_loop wakes w).2 !! i = Some a.
Proof.
  revert w. induction wakes as [|wk wakes IH]; intros w Hi Hwd Hall; [exact Hi|].
  apply Forall_cons in Hall as [Hwk Hall].
  destruct (wk_select wk) as [errno|xr ir] eqn:Hsel.
  - destruct (decide (errno = EINTR)) as [->|Hne].
    + rewrite (event_loop_eintr _ _ _ Hsel). now apply IH.
    + rewrite (event_loop_fatal _ _ _ _ Hsel Hne). exact Hi.
  - rewrite (event_loop_ready _ _ _ _ _ Hsel). apply IH; [|exact Hwd|exact Hall].
    set (w0 := append_log _ w).
    assert (Hx : attrs (x_part wk xr w0) !! i = Some a)
      by (rewrite x_part_attrs; exact Hi).
    unfold ino_part. destruct ir; [|exact Hx].
    destruct (0 <? _); [|exact Hx].
    pose proof (unwatched_untouched (wk_records wk)
                  (append_log [c_read_inotify (batch_len (wk_records wk))]
                     (x_part wk xr w0)) i a Hx Hwd Hwk) as H.
    now rewrite on_records_run in H.
Qed.

Lemma unwatched_never_updated_witness :
  let a := mkAttr "/sys/a" "A" 0 16711680 2105376 0 (-1) 9 in
  let w := mkWorld [a] 10 [] in
  let wk := mkWake (select_ready true true) [mkXEvent 12 9]
              [(mkIno 1 2 0, λ _, content 3 "1")] in
  (attrs w !! 0%nat = Some a /\ wd a < 0 /\
   Forall (λ wk, Forall (λ r : InotifyEvent * FS, 0 <= ie_wd (r.1)) (wk_records wk))
     [wk; wk]) /\
  attrs (event_loop [wk; wk] w).2 !! 0%nat = Some a.
Proof.
  intros a w wk.
  assert (Hwd : wd a < 0) by (subst a; simpl; lia).
  assert (Hall : Forall (λ wk, Forall (λ r : InotifyEvent * FS, 0 <= ie_wd (r.1))
                                 (wk_records wk)) [wk; wk])
    by (repeat constructor; simpl; lia).
  split; [split; [reflexivity | split; assumption]|].
  exact (unwatched_never_updated [wk; wk] w 0%nat a eq_refl Hwd Hall).
Defined.

(** ** The first paint *)

Lemma startup_calls_label env a :
  omap drawn_label (startup_calls env a)
  = if truthy (state a) then [label a] else [].
Proof.
  unfold startup_calls, window_calls, icon_calls. rewrite !omap_app.
  destruct (e_tray env =? 0); destruct (truthy (state a)); reflexivity.
Qed.

Lemma bind_via_set_win {B} (g : Attr -> list B) (l l0 : list Attr) :
  (forall a, g (set_win 0 a) = g a) ->
  set_win 0 <$> l = set_win 0 <$> l0 -> l ≫= g = l0 ≫= g.
Proof.
  intros Hg Hsame.
  assert (H : forall k : list Attr, k ≫= g = (set_win 0 <$> k) ≫= g).
  { intros k. rewrite list_fmap_bind. apply bind_ext_all. intros a.
    symmetry. apply Hg. }
  now rewrite (H l), (H l0), Hsame.
Qed.

(** X17.  On a run that reaches the loop, the labels drawn by the first
    paint are those of the arguments whose source did not read as 0 when the
    arguments were parsed, from the last argument to the first: the first
    paint shows the state of the first read, and reads nothing again. *)
Theorem first_paint_follows_first_read (env : Env) (argv : list string) :
  (2 <= length argv)%nat -> e_display env = true -> 0 <= e_ino_fd env ->
  omap drawn_label (log (run env argv []).2)
  = (reverse (tail argv) ≫= λ arg,
       let a0 := parse_arg arg in
       if truthy (read_value (e_fs env (path a0))) then [label a0] else []).
Proof.
  intros Hargc Hdpy Hino.
  destruct (main_started env argv Hargc Hdpy Hino) as (l' & Hsame & _ & Hrun).
  rewrite (Hrun []). cbn zeta. cbn [event_loop ret snd log].
  unfold startup_log. rewrite !omap_app, !omap_bind_calls.
  rewrite (bind_nil_all (λ a, omap drawn_label (read_calls _ _)))
    by (intros a; now apply read_calls_mute).
  rewrite (bind_nil_all (λ a, omap drawn_label (watch_calls env a)))
    by (intros a; unfold watch_calls; destruct (_ <? 0); reflexivity).
  cbn [omap list_omap drawn_label app]. rewrite app_nil_r.
  rewrite (bind_ext_all _ _ (reverse l') (startup_calls_label env)).
  rewrite (bind_via_set_win _ (reverse l') (reverse (initial_attr env <$> tail argv)))
    by (try reflexivity; rewrite !fmap_reverse; now rewrite Hsame).
  rewrite <- fmap_reverse, list_fmap_bind. reflexivity.
Qed.

Lemma first_paint_follows_first_read_witness :
  ((2 <= length demo_argv)%nat /\ e_display demo_env = true /\
   0 <= e_ino_fd demo_env) /\
  omap drawn_label (log (run demo_env demo_argv []).2)
  = (reverse (tail demo_argv) ≫= λ arg,
       let a0 := parse_arg arg in
       if truthy (read_value (e_fs demo_env (path a0))) then [label a0] else []).
Proof.
  assert (Hargc : (2 <= length demo_argv)%nat) by (unfold demo_argv; simpl; lia).
  assert (Hino : 0 <= e_ino_fd demo_env) by (unfold demo_env; simpl; lia).
  split; [split; [exact Hargc | split; [reflexivity | exact Hino]]|].
  exact (first_paint_follows_first_read demo_env demo_argv Hargc eq_refl Hino).
Defined.
